(** * PyOpenWorm: graph persistence engine and scoped resource loader

    A shallow embedding of [PyOpenWorm/command.py] (batched triple
    ingestion, per-context serialization, the index file and the bulk
    reload) and of [PyOpenWorm/datasource_loader.py] (resolution of a
    loader's path against its base directory), with the properties of
    the specification stated and settled over that embedding. *)

From stdpp Require Import gmap strings list sorting.
From Stdlib Require Import ZArith Lia Ascii.

Open Scope Z_scope.

(** ** Python values, exceptions and results *)

(** The exceptions the modelled code can raise.  [KeyboardInterrupt] and
    [SystemExit] derive from [BaseException] only, every other one from
    [Exception]. *)
Inductive load_failure :=
| EmptyResult
| OutsideBase
| Nonexistent
| NotADirectory.

Inductive exn :=
| TypeError
| ValueError
| AttributeError
| IOError
| OSError
| ZeroDivisionError
| ParseError
| LoadFailed (why : load_failure)
| OtherException (name : string)
| KeyboardInterrupt
| SystemExit.

Definition isinstance_Exception (e : exn) : bool :=
  match e with
  | KeyboardInterrupt | SystemExit => false
  | _ => true
  end.

Inductive result (A : Type) :=
| Ok (a : A)
| Raise (e : exn).
Arguments Ok {A} a.
Arguments Raise {A} e.

#[export] Instance load_failure_eq_dec : EqDecision load_failure.
Proof. solve_decision. Defined.

#[export] Instance exn_eq_dec : EqDecision exn.
Proof. solve_decision. Defined.

#[export] Instance result_eq_dec {A} `{EqDecision A} : EqDecision (result A).
Proof. solve_decision. Defined.

#[export] Instance result_bind : MBind result := fun A B k r =>
  match r with
  | Ok a => k a
  | Raise e => Raise e
  end.

#[export] Instance result_ret : MRet result := fun A a => Ok a.

(** The dynamically typed values that reach the modelled expressions. *)
Inductive pyval :=
| PyNone
| PyStr (s : string)
| PyInt (z : Z).

(** Truth value testing ([if v:], [not v]). *)
Definition truthy (v : pyval) : bool :=
  match v with
  | PyNone => false
  | PyStr s => negb (String.eqb s "")
  | PyInt z => negb (z =? 0)
  end.

(** The [+] operator: concatenation on [str], addition on [int], and a
    [TypeError] for mixed operands. *)
Definition py_add (a b : pyval) : result pyval :=
  match a, b with
  | PyStr s, PyStr t => Ok (PyStr (s +:+ t))
  | PyInt x, PyInt y => Ok (PyInt (x + y))
  | _, _ => Raise TypeError
  end.

(** ** Triples, quads and the store *)

Definition triple : Type := string * string * string.
Definition quad : Type := triple * string.

(** Modelled from the spec: the triple store behind [rdf.graph], which
    the repository only uses.  The store maps a context identifier to
    the set of its triples, and a context comes into being with its
    first triple. *)
Abbreviation Store := (gmap string (gset triple)).

Definition ctx_triples (st : Store) (c : string) : gset triple :=
  default ∅ (st !! c).

Definition store_add (st : Store) (q : quad) : Store :=
  <[q.2 := {[q.1]} ∪ ctx_triples st q.2]> st.

(** What [graph.addN(quads)] needs of the object behind [graph]: the
    bulk insert of the quads, each into the context it names. *)
Class GraphBackend (S : Type) := graph_addN : string → list quad → S → S.

#[export] Instance store_backend : GraphBackend Store :=
  fun _ quads st => foldl store_add st quads.

(** A backend that only records the bulk-insert calls it receives. *)
#[export] Instance log_backend : GraphBackend (list (list quad)) :=
  fun _ quads log => log ++ [quads].

(** ** [_BatchAddGraph] *)

Module BatchAddGraph.

Record t := mk {
  graph : string;
  batch : list quad;
  count : Z;
  batchsize : Z
}.

Definition reset (w : t) : t :=
  {| graph := graph w; batch := []; count := 0; batchsize := batchsize w |}.

Definition __init__ (g : string) (bs : Z) : t :=
  reset {| graph := g; batch := []; count := 0; batchsize := bs |}.

(** [count % batchsize], which raises on a zero divisor. *)
Definition py_mod (a b : Z) : result Z :=
  if b =? 0 then Raise ZeroDivisionError else Ok (a mod b).

Section ops.
Context {S : Type} `{GraphBackend S}.

Definition add (w : t) (tr : triple) (s : S) : result (t * S) :=
  full ← (if 0 <? count w
          then r ← py_mod (count w) (batchsize w) ; Ok (r =? 0)
          else Ok false) ;
  let '(b, s') :=
    if (full : bool) then ([], graph_addN (graph w) (batch w) s)
    else (batch w, s) in
  Ok ({| graph := graph w; batch := b ++ [(tr, graph w)];
         count := count w + 1; batchsize := batchsize w |}, s').

Definition __enter__ (w : t) : t := reset w.

Definition __exit__ (w : t) (exc : option exn) (s : S) : S :=
  match exc with
  | None => graph_addN (graph w) (batch w) s
  | Some _ => s
  end.

(** A run of [add] calls, stopping at the first one that raises. *)
Fixpoint add_all (w : t) (s : S) (l : list triple) : result (t * S) :=
  match l with
  | [] => Ok (w, s)
  | tr :: l' => ws ← add w tr s ; add_all ws.1 ws.2 l'
  end.

(** [with _BatchAddGraph(g, batchsize=bs) as w: for tr in l: w.add(tr)],
    the body ending normally. *)
Definition with_batch (g : string) (bs : Z) (l : list triple) (s : S)
  : result (t * S) :=
  ws ← add_all (__enter__ (__init__ g bs)) s l ;
  Ok (ws.1, __exit__ ws.1 None ws.2).

(** The same scope when the body raises [e] after the calls of [l]. *)
Definition with_batch_raising (g : string) (bs : Z) (l : list triple)
    (e : exn) (s : S) : result (t * S) :=
  ws ← add_all (__enter__ (__init__ g bs)) s l ;
  Ok (ws.1, __exit__ ws.1 (Some e) ws.2).

(** The effect of a sequence of bulk inserts. *)
Definition replay (g : string) (log : list (list quad)) (s : S) : S :=
  foldl (fun s b => graph_addN g b s) s log.

End ops.

Definition quads (g : string) (l : list triple) : list quad :=
  (fun tr => (tr, g)) <$> l.

(** The state reached by the [add] calls of [l] on a fresh writer: the
    bulk inserts made so far all carried exactly [B] quads, and together
    with the buffer they are the quads of [l], in order. *)
Definition reached {S} `{GraphBackend S} (g : string) (B : Z) (s0 : S) (l : list triple)
    (w : t) (s : S) : Prop :=
  graph w = g ∧ batchsize w = B ∧ count w = Z.of_nat (length l) ∧
  ∃ log : list (list quad),
    s = replay g log s0 ∧
    concat log ++ batch w = quads g l ∧
    Forall (fun b => Z.of_nat (length b) = B) log ∧
    count w = Z.of_nat (length log) * B + Z.of_nat (length (batch w)) ∧
    (l ≠ [] → 1 ≤ Z.of_nat (length (batch w)) ≤ B).

End BatchAddGraph.

(** ** Strings *)

Module Str.

(** [str.split(sep)] for a one-character separator. *)
Fixpoint split (sep : ascii) (s : string) : list string :=
  match s with
  | EmptyString => [EmptyString]
  | String c s' =>
      if Ascii.eqb c sep then EmptyString :: split sep s'
      else match split sep s' with
           | [] => [String c EmptyString]
           | x :: xs => String c x :: xs
           end
  end.

(** [sep.join(l)]. *)
Fixpoint join (sep : string) (l : list string) : string :=
  match l with
  | [] => EmptyString
  | [x] => x
  | x :: l' => x +:+ sep +:+ join sep l'
  end.

(** The characters [str.strip()] removes: those for which
    [str.isspace] holds, among the 8-bit ones. *)
Definition isspace (c : ascii) : bool :=
  match c with
  | "009" | "010" | "011" | "012" | "013" | "028" | "029" | "030" | "031"
  | " " | "133" | "160" => true
  | _ => false
  end%char.

Fixpoint lstrip (s : string) : string :=
  match s with
  | EmptyString => EmptyString
  | String c s' => if isspace c then lstrip s' else s
  end.

Fixpoint rstrip (s : string) : string :=
  match s with
  | EmptyString => EmptyString
  | String c s' =>
      match rstrip s' with
      | EmptyString => if isspace c then EmptyString else String c EmptyString
      | r => String c r
      end
  end.

Definition strip (s : string) : string := rstrip (lstrip s).

(** What reading a file opened in text mode gives for the text [s] it
    holds: a line ends at a line feed, at a carriage return, or at the
    two in a row, and each of these ends is read as one line feed. *)
Fixpoint universal_newlines (s : string) : string :=
  match s with
  | EmptyString => EmptyString
  | String c s' =>
      if Ascii.eqb c "013" then
        match s' with
        | String c' s'' =>
            if Ascii.eqb c' "010" then String "010" (universal_newlines s'')
            else String "010" (universal_newlines s')
        | EmptyString => String "010" EmptyString
        end
      else String c (universal_newlines s')
  end.

(** The lines of a text file, each with its terminator, as iterating
    over the file opened in text mode yields them in Python 3: the line
    ends are those of [universal_newlines]. *)
Fixpoint readlines (s : string) : list string :=
  match s with
  | EmptyString => []
  | String c s' =>
      if Ascii.eqb c "010" then String "010" EmptyString :: readlines s'
      else if Ascii.eqb c "013" then
        match s' with
        | String c' s'' =>
            if Ascii.eqb c' "010" then String "010" EmptyString :: readlines s''
            else String "010" EmptyString :: readlines s'
        | EmptyString => [String "010" EmptyString]
        end
      else match readlines s' with
           | [] => [String c EmptyString]
           | l :: ls => String c l :: ls
           end
  end.

(** The characters at which a line of a text file ends. *)
Definition line_end (c : ascii) : bool :=
  (Ascii.eqb c "010" || Ascii.eqb c "013")%bool.

(** No character of [s] satisfies [p]. *)
Fixpoint none_of (p : ascii → bool) (s : string) : bool :=
  match s with
  | EmptyString => true
  | String c s' => negb (p c) && none_of p s'
  end.

Fixpoint last_char (s : string) : option ascii :=
  match s with
  | EmptyString => None
  | String c EmptyString => Some c
  | String _ s' => last_char s'
  end.

End Str.

(** ** [os.path], as the loader uses it *)

Module PosixPath.

Definition isabs (s : string) : bool := String.prefix "/" s.

(** [os.path.join(a, b)]. *)
Definition join (a b : string) : string :=
  if String.prefix "/" b then b
  else if (String.eqb a "" || bool_decide (Str.last_char a = Some "/"%char))%bool
       then a +:+ b
       else a +:+ "/" +:+ b.

(** What the operating system answers: [realpath], the canonical form
    of a path (symbolic links and dot segments resolved), and what lies
    at a path. *)
Record os := {
  realpath : string → string;
  exists_ : string → bool;
  isdir : string → bool
}.

(** [os.path.normpath]. *)
Definition normpath (path : string) : string :=
  if String.eqb path "" then "." else
  let initial_slashes : nat :=
    if String.prefix "/" path
    then (if (String.prefix "//" path && negb (String.prefix "///" path))%bool
          then 2%nat else 1%nat)
    else 0%nat in
  let step (new_comps : list string) (comp : string) : list string :=
    if (String.eqb comp "" || String.eqb comp ".")%bool then new_comps
    else if (negb (String.eqb comp "..")
             || (Nat.eqb initial_slashes 0 && bool_decide (new_comps = []))
             || bool_decide (last new_comps = Some ".."))%bool
         then new_comps ++ [comp]
         else removelast new_comps in
  let comps := foldl step [] (Str.split "/" path) in
  let path' := Str.join "/" (replicate initial_slashes "" ++ [Str.join "/" comps]) in
  if String.eqb path' "" then "." else path'.

(** A filesystem without symbolic links, given by its working
    directory, its directories and its other files: there [realpath] is
    the normal form of the path joined to the working directory, with
    one slash at its head however many the path has ([normpath] alone
    keeps exactly two). *)
Definition plain_os (cwd : string) (dirs files : list string) : os := {|
  realpath p :=
    let q := if isabs p then p else join cwd p in
    normpath (if String.prefix "//" q then "/" +:+ q else q);
  exists_ p := bool_decide (p ∈ dirs ++ files);
  isdir p := bool_decide (p ∈ dirs)
|}.

End PosixPath.

(** ** [DataSourceDirLoader] *)

Module DataSourceDirLoader.
Import PosixPath.

(** The instance: [base_directory] is [None] while the attribute has
    never been assigned. *)
Record t := mk { base_directory : option string }.

(** [DataSourceDirLoader(base_directory)], [PyNone] standing for the
    default.  [realpath] of a value that is not a path raises. *)
Definition __init__ (o : os) (base : pyval) : result t :=
  if truthy base then
    match base with
    | PyStr b => Ok {| base_directory := Some (realpath o b) |}
    | _ => Raise TypeError
    end
  else Ok {| base_directory := None |}.

(** Reading [self.base_directory]. *)
Definition get_base_directory (self : t) : result string :=
  match base_directory self with
  | Some b => Ok b
  | None => Raise AttributeError
  end.

(** [self(data_source)], where [s] is what [self.load(data_source)]
    returned. *)
Definition __call__ (o : os) (self : t) (s : string) : result string :=
  if String.eqb s "" then Raise (LoadFailed EmptyResult) else
  s' ← (if negb (isabs s)
        then b ← get_base_directory self; Ok (join b s)
        else Ok s);
  let rpath := realpath o s' in
  b ← get_base_directory self;
  if negb (String.prefix b rpath) then Raise (LoadFailed OutsideBase)
  else if negb (exists_ o rpath) then Raise (LoadFailed Nonexistent)
  else if negb (isdir o rpath) then Raise (LoadFailed NotADirectory)
  else Ok rpath.

(** The containment the specification words: the canonical path is the
    base directory itself or starts with the base directory followed by
    a separator. *)
Definition spec_within_base (base rpath : string) : bool :=
  (String.eqb rpath base || String.prefix (base +:+ "/") rpath)%bool.

End DataSourceDirLoader.

(** ** The working directory on disk *)

Module FS.

#[local] Unset Elimination Schemes.
(** A file tree of regular files and directories, without symbolic
    links; a path is the list of the names leading to a node. *)
Inductive node :=
| File (data : string)
| Dir (entries : list (string * node)).
#[local] Set Elimination Schemes.

Definition path : Type := list string.

Fixpoint entry (name : string) (es : list (string * node)) : option node :=
  match es with
  | [] => None
  | (m, c) :: es' => if decide (m = name) then Some c else entry name es'
  end.

Fixpoint lookup (p : path) (n : node) : option node :=
  match p with
  | [] => Some n
  | name :: p' =>
      match n with
      | File _ => None
      | Dir es =>
          match entry name es with
          | Some c => lookup p' c
          | None => None
          end
      end
  end.

(** [os.path.exists]. *)
Definition exists_ (p : path) (n : node) : bool :=
  bool_decide (is_Some (lookup p n)).

(** The tree without the node at [p] and what lies below it: what
    [shutil.rmtree] leaves when it succeeds ([shutil_rmtree] below has
    its errors). *)
Fixpoint rmtree (p : path) (n : node) : node :=
  match p, n with
  | [], _ => n
  | _, File _ => n
  | [name], Dir es => Dir (filter (fun e => e.1 ≠ name) es)
  | name :: p', Dir es =>
      Dir ((fun e => if decide (e.1 = name) then (e.1, rmtree p' e.2) else e) <$> es)
  end.

(** [os.makedirs]: the missing directories along [p] are created; a
    file in the way is an error. *)
Fixpoint makedirs (p : path) (n : node) : result node :=
  match p with
  | [] => Ok n
  | name :: p' =>
      match n with
      | File _ => Raise OSError
      | Dir es =>
          match entry name es with
          | Some c =>
              c' ← makedirs p' c;
              Ok (Dir ((fun e => if decide (e.1 = name) then (e.1, c') else e) <$> es))
          | None =>
              c' ← makedirs p' (Dir []);
              Ok (Dir ((name, c') :: es))
          end
      end
  end.

(** Code that works on the file tree and may raise after having changed
    it. *)
Definition io (A : Type) : Type := node → node * result A.

Definition io_ret {A} (a : A) : io A := fun fs => (fs, Ok a).
Definition io_raise {A} (e : exn) : io A := fun fs => (fs, Raise e).
Definition io_bind {A B} (m : io A) (k : A → io B) : io B := fun fs =>
  match m fs with
  | (fs', Ok a) => k a fs'
  | (fs', Raise e) => (fs', Raise e)
  end.

(** [try: body except Exception as e: handler(e)]. *)
Definition try_except_Exception {A} (body : io A) (handler : exn → io A)
  : io A := fun fs =>
  match body fs with
  | (fs', Raise e) =>
      if isinstance_Exception e then handler e fs' else (fs', Raise e)
  | ok => ok
  end.

(** No regular file lies at [p]: there is a directory, or nothing.
    [shutil.rmtree] is meant for that case. *)
Definition no_file_at (p : path) (n : node) : Prop :=
  ∀ data, lookup p n ≠ Some (File data).

(** [shutil.rmtree(p)] with its errors: [p] must be a directory. *)
Definition shutil_rmtree (p : path) (n : node) : result node :=
  match lookup p n with
  | Some (Dir _) => Ok (rmtree p n)
  | _ => Raise OSError
  end.

(** [m] never puts a regular file at [p]. *)
Definition keeps_no_file_at {A} (p : path) (m : io A) : Prop :=
  ∀ fs fs' r, m fs = (fs', r) → no_file_at p fs → no_file_at p fs'.

(** [try: body except BaseException as e: handler(e)]. *)
Definition try_except_BaseException {A} (body : io A) (handler : exn → io A)
  : io A := fun fs =>
  match body fs with
  | (fs', Raise e) => handler e fs'
  | ok => ok
  end.

(** [os.makedirs(p)] as it is called without a test before it: a path
    that exists already is an error. *)
Definition os_makedirs (p : path) (n : node) : result node :=
  if exists_ p n then Raise OSError else makedirs p n.

(** [with open(p, 'w') as f: f.write(data)]: the file is created or
    replaced; its directory must exist, and [p] must not be a
    directory. *)
Fixpoint write_file (p : path) (data : string) (n : node) : result node :=
  match p with
  | [] =>
      match n with
      | File _ => Ok (File data)
      | Dir _ => Raise IOError
      end
  | name :: p' =>
      match n with
      | File _ => Raise IOError
      | Dir es =>
          match entry name es with
          | Some c =>
              c' ← write_file p' data c;
              Ok (Dir ((fun e => if decide (e.1 = name) then (e.1, c') else e) <$> es))
          | None =>
              match p' with
              | [] => Ok (Dir ((name, File data) :: es))
              | _ => Raise IOError
              end
          end
      end
  end.

(** [with open(p, 'r') as f: f.read()]. *)
Definition read_file (p : path) (n : node) : result string :=
  match lookup p n with
  | Some (File data) => Ok data
  | _ => Raise IOError
  end.

End FS.

(** ** [POW] *)

Module POW.
Import FS.

(** *** [init] *)

Section init.

Variables powdir config_file : path.

(** The collaborators of [init]: writing the default configuration
    file, rewriting an existing one, opening the store, and the
    repository provider's [init] ([None] when no provider is set). *)
Variables _init_config_file update_config _init_store : io unit.
Variable repository_provider : option (path → io unit).

Definition _ensure_powdir : io unit := fun fs =>
  if negb (exists_ powdir fs) then
    match makedirs powdir fs with
    | Ok fs' => (fs', Ok ())
    | Raise e => (fs, Raise e)
    end
  else (fs, Ok ()).

Definition _ensure_no_powdir : io unit := fun fs =>
  if exists_ powdir fs then
    match shutil_rmtree powdir fs with
    | Ok fs' => (fs', Ok ())
    | Raise e => (fs, Raise e)
    end
  else (fs, Ok ()).

Definition _init_repository : io unit :=
  match repository_provider with
  | Some provider_init => provider_init powdir
  | None => io_ret ()
  end.

Definition init (update_existing_config : bool) : io unit :=
  try_except_Exception
    (io_bind _ensure_powdir (fun _ =>
     io_bind (fun fs =>
                if negb (exists_ config_file fs) then _init_config_file fs
                else if update_existing_config then update_config fs
                else (fs, Ok ())) (fun _ =>
     io_bind _init_store (fun _ =>
     _init_repository))))
    (fun e => io_bind _ensure_no_powdir (fun _ => io_raise e)).

End init.

(** *** [clone] *)

Section clone.

Variables powdir config_file : path.

(** The collaborators of [clone]: writing the default configuration
    file, opening the store, the bulk load of what was fetched, and the
    repository provider's [clone] ([None] when no provider is set, on
    which the attribute access raises).  The progress reporters of the
    two [with] blocks are taken to report and nothing more; a reporter
    that raises adds runs that end in the same handler. *)
Variables _init_config_file _init_store load_all_graphs : io unit.
Variable repository_provider : option (path → io unit).

Definition clone : io unit :=
  try_except_BaseException
    (io_bind (fun fs =>
                match os_makedirs powdir fs with
                | Ok fs' => (fs', Ok ())
                | Raise e => (fs, Raise e)
                end) (fun _ =>
     io_bind (match repository_provider with
              | Some provider_clone => provider_clone powdir
              | None => io_raise AttributeError
              end) (fun _ =>
     io_bind (fun fs =>
                if negb (exists_ config_file fs) then _init_config_file fs
                else (fs, Ok ())) (fun _ =>
     io_bind _init_store (fun _ =>
     load_all_graphs)))))
    (fun e => io_bind (_ensure_no_powdir powdir) (fun _ => io_raise e)).

End clone.

(** *** [context] *)

(** [context(context)], returning the text it hands to [self.message],
    if any.  The file is [context] in the base directory.  [open] with
    mode ['w'] empties the file before [print] writes to it, and [print]
    raises on a text the encoding of the file does not have
    ([encodable] says which texts it has); the file is read back in text
    mode. *)
Definition context (encodable : string → bool) (basedir : path)
    (context : option string) : io (option string) := fun fs =>
  let ctx_file_name := basedir ++ ["context"] in
  match context with
  | Some c =>
      match write_file ctx_file_name
              (if encodable c then c +:+ String "010" "" else "") fs with
      | Ok fs' => (fs', if encodable c then Ok None else Raise ValueError)
      | Raise e => (fs, Raise e)
      end
  | None =>
      if negb (exists_ ctx_file_name fs) then (fs, Ok (Some "No context"))
      else match read_file ctx_file_name fs with
           | Ok data => (fs, Ok (Some (Str.universal_newlines data)))
           | Raise e => (fs, Raise e)
           end
  end.

(** *** The [graphs] directory *)

(** Modelled from the spec: the line-oriented triple format, written
    and parsed by a library.  A line of a triple file is a statement, or
    text that is not one. *)
Inductive nt_line :=
| NTriple (tr : triple)
| NMalformed (text : string).

(** The [graphs] directory: its triple files by the names of its
    entries, and the text of [index] when that file exists.  For the
    name [n] of an entry, [pth_join(graphs_base, n)] is the entry, and
    [relpath] of it against [graphs_base] is [n] again. *)
Record graphs_dir := mk_graphs {
  nt_files : gmap string (list nt_line);
  index : option string
}.

(** The order of [sorted] on strings and on tuples of strings. *)
Definition pair_le (a b : string * string) : Prop :=
  a.1 ≠ b.1 ∧ String.le a.1 b.1 ∨ a.1 = b.1 ∧ String.le a.2 b.2.

Definition triple_le (a b : triple) : Prop :=
  a.1 ≠ b.1 ∧ pair_le a.1 b.1 ∨ a.1 = b.1 ∧ String.le a.2 b.2.

#[export] Instance pair_le_dec : RelDecision pair_le.
Proof. intros a b; unfold pair_le; apply _. Defined.

#[export] Instance triple_le_dec : RelDecision triple_le.
Proof. intros a b; unfold triple_le; apply _. Defined.

(** [g.contexts()]: the contexts of the store, each with its
    identifier and its triples. *)
Definition contexts (g : Store) : list (string * gset triple) :=
  map_to_list g.

(** The serializer of the triple format applied to [sorted(x)]: one
    line for each triple, in sorted order. *)
Definition serialize_nt (x : gset triple) : list nt_line :=
  NTriple <$> merge_sort triple_le (elements x).

(** [print(fname, ident, file=index_file)]. *)
Definition index_line (l : string * string) : string :=
  l.1 +:+ " " +:+ l.2 +:+ String "010" "".

Section serialize.

(** [hashlib.sha256(ident.encode()).hexdigest()]. *)
Variable hexdigest : string → string.

Definition as_str (v : pyval) : result string :=
  match v with
  | PyStr s => Ok s
  | _ => Raise TypeError
  end.

(** The loop
    [while exists(fname): fname = pth_join(graphs_base, hs + '-' + i + '.nt'); i += 1].
    Every round tries a further name, so one round more than there are
    files is enough. *)
Fixpoint unused_name (fuel : nat) (files : gmap string (list nt_line))
    (hs : string) (fname : string) (i : Z) : result string :=
  if bool_decide (is_Some (files !! fname)) then
    match fuel with
    | O => Raise (OtherException "unreachable")
    | Datatypes.S fuel' =>
        v ← py_add (PyStr hs) (PyStr "-");
        v ← py_add v (PyInt i);
        v ← py_add v (PyStr ".nt");
        fname' ← as_str v;
        unused_name fuel' files hs fname' (i + 1)
    end
  else Ok fname.

(** The loop over [g.contexts()]. *)
Fixpoint serialize_contexts (xs : list (string * gset triple))
    (files : gmap string (list nt_line)) (ctx_data : list (string * string))
  : result (gmap string (list nt_line) * list (string * string)) :=
  match xs with
  | [] => Ok (files, ctx_data)
  | x :: xs' =>
      let ident := x.1 in
      let hs := hexdigest ident in
      fname ← unused_name (Datatypes.S (size files)) files hs (hs +:+ ".nt") 1;
      serialize_contexts xs' (<[fname := serialize_nt x.2]> files)
        (ctx_data ++ [(fname, ident)])
  end.

(** [_serialize_graphs]: whatever [graphs] held before is removed, the
    contexts are written, then the index.  The calls on the repository
    provider stage files and leave their contents alone. *)
Definition _serialize_graphs (before : option graphs_dir) (g : Store)
  : result graphs_dir :=
  '(files, ctx_data) ← serialize_contexts (contexts g) ∅ [];
  Ok {| nt_files := files;
        index := Some (foldr (fun l text => index_line l +:+ text) ""
                         (merge_sort pair_le ctx_data)) |}.

End serialize.

(** A digest to run the examples with: the identifier written in
    hexadecimal, which is free of collisions. *)
Definition hex_digit (n : N) : ascii :=
  match n with
  | 0 => "0" | 1 => "1" | 2 => "2" | 3 => "3" | 4 => "4" | 5 => "5"
  | 6 => "6" | 7 => "7" | 8 => "8" | 9 => "9" | 10 => "a" | 11 => "b"
  | 12 => "c" | 13 => "d" | 14 => "e" | _ => "f"
  end%N%char.

Fixpoint example_hexdigest (s : string) : string :=
  match s with
  | EmptyString => EmptyString
  | String a s' =>
      String (hex_digit (N.div (N_of_ascii a) 16))
        (String (hex_digit (N.modulo (N_of_ascii a) 16)) (example_hexdigest s'))
  end.

(** *** [_load_all_graphs] *)

(** [fname, ctx = l.strip().split(' ')]. *)
Definition parse_index_line (l : string) : result (string * string) :=
  match Str.split " " (Str.strip l) with
  | [fname; ctx] => Ok (fname, ctx)
  | _ => Raise ValueError
  end.

(** The parsing the specification words: the line is cut at its first
    space, and a line without one is an error. *)
Fixpoint spec_split_first_space (l : string) : option (string * string) :=
  match l with
  | EmptyString => None
  | String c l' =>
      if Ascii.eqb c " " then Some (EmptyString, l')
      else match spec_split_first_space l' with
           | Some (f, i) => Some (String c f, i)
           | None => None
           end
  end.

(** Modelled from the spec: the streaming parser of the triple format
    feeding [g], [parser.parse(create_input_source(f), g)].  It calls
    [g.add] for each statement, in order, and raises [ParseError] at the
    first line that is not one.  The writer and the store are returned
    as they are when the parser stops. *)
Fixpoint parse_nt (lines : list nt_line) (w : BatchAddGraph.t) (st : Store)
  : BatchAddGraph.t * Store * option exn :=
  match lines with
  | [] => (w, st, None)
  | NTriple tr :: lines' =>
      match BatchAddGraph.add w tr st with
      | Ok ws => parse_nt lines' ws.1 ws.2
      | Raise e => (w, st, Some e)
      end
  | NMalformed _ :: _ => (w, st, Some ParseError)
  end.

Section load.

(** What the operating system finds for a name that is no entry of the
    [graphs] directory: a name with directories in it is resolved from
    there, through the rest of the file tree, and [pth_join] returns an
    absolute name as it is. *)
Variable os_open : string → option (list nt_line).

(** [open(pth_join(self.powdir, 'graphs', fname), 'rb')]. *)
Definition open_graph_file (dir : graphs_dir) (fname : string)
  : option (list nt_line) :=
  match nt_files dir !! fname with
  | Some f => Some f
  | None => os_open fname
  end.

(** One round of the loop over the index: the line is parsed, the file
    opened, and its triples go through a [_BatchAddGraph] scope on
    [dest.get_context(ctx)]. *)
Definition load_line (dir : graphs_dir) (l : string) (st : Store)
    (triples_read : Z) : Store * result Z :=
  match parse_index_line l with
  | Raise e => (st, Raise e)
  | Ok (fname, ctx) =>
      match open_graph_file dir fname with
      | None => (st, Raise IOError)
      | Some f =>
          let g := BatchAddGraph.__enter__ (BatchAddGraph.__init__ ctx 4000) in
          let '(g', st', exc) := parse_nt f g st in
          let st'' := BatchAddGraph.__exit__ g' exc st' in
          match exc with
          | None => (st'', Ok (triples_read + BatchAddGraph.count g'))
          | Some e => (st'', Raise e)
          end
      end
  end.

Fixpoint load_lines (dir : graphs_dir) (ls : list string) (st : Store)
    (triples_read : Z) : Store * result Z :=
  match ls with
  | [] => (st, Ok triples_read)
  | l :: ls' =>
      match load_line dir l st triples_read with
      | (st', Ok n) => load_lines dir ls' st' n
      | (st', Raise e) => (st', Raise e)
      end
  end.

(** Modelled from the spec: the transactional scope
    [with transaction.manager: body], in which the store takes part.
    The changes of a body that raises are rolled back. *)
Definition transaction_manager {A} (body : Store → Store * result A)
    (st : Store) : Store * result A :=
  match body st with
  | (st', Ok a) => (st', Ok a)
  | (_, Raise e) => (st, Raise e)
  end.

(** A transactional scope around the loop of the load, and what the
    load relies on: the scope hands on the exception that leaves it, and
    the store is then as it was on entry. *)
Definition transactional : Type :=
  (Store → Store * result Z) → Store → Store * result Z.

Definition rolls_back (scope : transactional) : Prop :=
  ∀ body st st' e, body st = (st', Raise e) → scope body st = (st, Raise e).

(** [_load_all_graphs] in the transactional scope [scope], returning
    the number of triples it reports. *)
Definition _load_all_graphs_in (scope : transactional) (dir : graphs_dir)
    (dest : Store) : Store * result Z :=
  match index dir with
  | Some index_file =>
      scope (fun st => load_lines dir (Str.readlines index_file) st 0) dest
  | None => (dest, Ok 0)
  end.

(** [_load_all_graphs], in [transaction_manager]. *)
Definition _load_all_graphs (dir : graphs_dir) (dest : Store)
  : Store * result Z :=
  _load_all_graphs_in transaction_manager dir dest.

(** The number of statements of the file that an index line names;
    zero for a line that names none. *)
Definition listed_statements (dir : graphs_dir) (l : string) : Z :=
  match parse_index_line l with
  | Ok (fname, _) =>
      match open_graph_file dir fname with
      | Some f => Z.of_nat (length f)
      | None => 0
      end
  | Raise _ => 0
  end.

End load.

(** A file tree in which the [graphs] directory is all there is to
    open. *)
Definition nothing_else : string → option (list nt_line) := fun _ => None.

(** *** [_serialize_graphs], with what it leaves on disk *)

Section serialize_on_disk.

Variable hexdigest : string → string.

(** The loop over [g.contexts()] again, returning the files written so
    far when it raises. *)
Fixpoint serialize_contexts_on_disk (xs : list (string * gset triple))
    (files : gmap string (list nt_line)) (ctx_data : list (string * string))
  : gmap string (list nt_line) * result (list (string * string)) :=
  match xs with
  | [] => (files, Ok ctx_data)
  | x :: xs' =>
      let ident := x.1 in
      let hs := hexdigest ident in
      match unused_name (Datatypes.S (size files)) files hs (hs +:+ ".nt") 1 with
      | Ok fname =>
          serialize_contexts_on_disk xs' (<[fname := serialize_nt x.2]> files)
            (ctx_data ++ [(fname, ident)])
      | Raise e => (files, Raise e)
      end
  end.

(** [_serialize_graphs] as a change of the [graphs] directory ([None]
    while it does not exist): it is removed if it exists and made anew,
    the contexts are written, then the index. *)
Definition _serialize_graphs_on_disk (before : option graphs_dir) (g : Store)
  : option graphs_dir * result unit :=
  match serialize_contexts_on_disk (contexts g) ∅ [] with
  | (files, Ok ctx_data) =>
      (Some {| nt_files := files;
               index := Some (foldr (fun l text => index_line l +:+ text) ""
                                (merge_sort pair_le ctx_data)) |}, Ok ())
  | (files, Raise e) => (Some {| nt_files := files; index := None |}, Raise e)
  end.

End serialize_on_disk.

(** *** [translate] *)

(** The names that an instance of [POW] has: those of the class body
    and the attributes that [__init__] and the setters assign. *)
Definition POW_attributes : list string :=
  ["graph_accessor_finder"; "basedir"; "repository_provider"; "source";
   "translator"; "__init__"; "progress_reporter"; "message"; "powdir";
   "_powdir"; "config_file"; "_config_file"; "store_name"; "_store_name";
   "_ensure_powdir"; "log_level"; "context"; "init"; "_ensure_no_powdir";
   "_init_config_file"; "_write_config"; "_init_repository"; "fetch_graph";
   "add_graph"; "_obtain_graph_accessor"; "_conf"; "_dat"; "_dat_file";
   "_init_store"; "clone"; "_load_all_graphs"; "translate";
   "_lookup_translator"; "reconstitute"; "serialize"; "_package_path";
   "_default_config"; "list_contexts"; "_rdf"; "commit";
   "_serialize_graphs"; "diff"; "merge"; "push"; "tag"].

(** Looking up [self.name]. *)
Definition getattr_self (name : string) : result unit :=
  if bool_decide (name ∈ POW_attributes) then Ok () else Raise AttributeError.

(** [k, src = key], the unpacking of a string into two targets. *)
Definition unpack_pair (key : string) : result (string * string) :=
  match key with
  | String a (String b EmptyString) =>
      Ok (String a EmptyString, String b EmptyString)
  | _ => Raise ValueError
  end.

(** [d.name], where [d] is what [TemporaryDirectory.__enter__] returned:
    the name of the directory, a string, which has no such attribute. *)
Definition temporary_directory_name (d : string) : result string :=
  Raise AttributeError.

Section translate.

(** The collaborators of [translate]: the translators that [load]
    yields for an identifier, the call of a translator class, the
    constructor of the imports context, the creation of the temporary
    directory, [os.getcwd], and what follows [os.chdir]. *)
Variable translator_class : Type.
Variable load_translators : string → result (list translator_class).
Variable instantiate : translator_class → result unit.
Variable make_context : string → result unit.
Variable TemporaryDirectory : result string.
Variable getcwd : result string.
Variable in_directory : string → result unit.

(** [_lookup_translator]: the first translator loaded, [None] when
    there is none. *)
Definition _lookup_translator (tname : string)
  : result (option translator_class) :=
  xs ← load_translators tname; Ok (head xs).

(** [translate]; [named_data_sources] is the keyword dictionary in
    the order of its iteration, which yields its keys. *)
Definition translate (translator imports_context_ident : string)
    (data_sources : list string) (named_data_sources : list (string * string))
  : result unit :=
  _ ← make_context imports_context_ident;
  tc ← _lookup_translator translator;
  _ ← match tc with
      | Some c => instantiate c
      | None => Raise TypeError
      end;
  _ ← match data_sources with
      | [] => Ok ()
      | _ :: _ => getattr_self "_lookup_source"
      end;
  _ ← match named_data_sources with
      | [] => Ok ()
      | (key, _) :: _ => _ ← unpack_pair key; getattr_self "_lookup_source"
      end;
  d ← TemporaryDirectory;
  _ ← getcwd;
  name ← temporary_directory_name d;
  in_directory name.

End translate.

(** *** The paths of the working directory *)

Record settings := {
  basedir : string;
  _powdir : string;
  _config_file : string;
  _store_name : string
}.

Definition powdir (s : settings) : string :=
  if PosixPath.isabs (_powdir s) then _powdir s
  else PosixPath.join (basedir s) (_powdir s).

Definition config_file (s : settings) : string :=
  if PosixPath.isabs (_config_file s) then _config_file s
  else PosixPath.join (powdir s) (_config_file s).

Definition store_name (s : settings) : string :=
  if PosixPath.isabs (_store_name s) then _store_name s
  else PosixPath.join (powdir s) (_store_name s).

End POW.

(** ** [POWSource] *)

Module POWSource.

Section show.

(** [rdflib.namespace.is_ncname]. *)
Variable is_ncname : string → bool.

(** The loop over [nm.namespaces()], left at the first prefix that is
    [pref]. *)
Fixpoint first_namespace (pref : string) (namespaces : list (string * string))
  : option string :=
  match namespaces with
  | [] => None
  | (p, ns) :: namespaces' =>
      if String.eqb p pref then Some ns else first_namespace pref namespaces'
  end.

(** The identifier that [show(data_source)] looks up. *)
Definition show_uri (namespaces : list (string * string))
    (data_source : string) : string :=
  let parts := Str.split ":" data_source in
  match parts with
  | p0 :: p1 :: _ =>
      if is_ncname p1 then
        match first_namespace p0 namespaces with
        | Some ns => ns +:+ p1
        | None => data_source
        end
      else data_source
  | _ => data_source
  end.

End show.

End POWSource.

(** * Properties *)

(** ** Batched ingestion *)

Section batch_facts.
Import BatchAddGraph.
Context {S : Type} `{GraphBackend S}.

Lemma add_all_app (w : t) (s : S) (l1 l2 : list triple) :
  add_all w s (l1 ++ l2) = ws ← add_all w s l1 ; add_all ws.1 ws.2 l2.
Proof.
  revert w s; induction l1 as [|tr l1 IH]; intros w s; simpl; [done|].
  destruct (add w tr s) as [[w' s']|e]; simpl; [apply IH|done].
Qed.

(** One [add] on a writer whose batch size is not zero: either the
    buffer is handed over whole by one [addN] and restarted with the new
    triple, or the new triple is appended and the backend is left alone. *)
Lemma add_step (w : t) (tr : triple) (s : S) :
  batchsize w ≠ 0 →
  add w tr s =
    if decide (0 < count w ∧ count w mod batchsize w = 0)
    then Ok ({| graph := graph w; batch := [(tr, graph w)];
                count := count w + 1; batchsize := batchsize w |},
             graph_addN (graph w) (batch w) s)
    else Ok ({| graph := graph w; batch := batch w ++ [(tr, graph w)];
                count := count w + 1; batchsize := batchsize w |}, s).
Proof.
  intros HB. unfold add, py_mod.
  destruct (Z.ltb_spec 0 (count w)) as [Hc|Hc]; simpl.
  - destruct (Z.eqb_spec (batchsize w) 0) as [?|_]; [done|]. simpl.
    destruct (Z.eqb_spec (count w mod batchsize w) 0) as [Hm|Hm]; simpl.
    + rewrite decide_True by done. done.
    + rewrite decide_False by tauto. done.
  - rewrite decide_False by lia. done.
Qed.

Lemma add_all_reached (g : string) (B : Z) (s0 : S) (l : list triple) :
  1 ≤ B →
  ∃ w s, add_all (__enter__ (__init__ g B)) s0 l = Ok (w, s) ∧ reached g B s0 l w s.
Proof.
  intros HB. induction l as [|tr l IH] using rev_ind.
  - eexists _, _; split; [done|]. unfold reached. simpl.
    split_and!; try done. exists []. split_and!; try done.
  - destruct IH as (w & s & Hrun & Hg & Hbs & Hc & log & Hs & Hcat & Hfull & Hcnt & Hlen).
    rewrite add_all_app, Hrun. simpl.
    rewrite add_step by lia. rewrite Hg, Hbs.
    case_decide as Hflush; simpl.
    + eexists _, _; split; [done|]. unfold reached. simpl.
      split_and!; try done.
      { rewrite length_app; simpl. lia. }
      assert (Hb : Z.of_nat (length (batch w)) = B).
      { destruct Hflush as [Hpos Hmod].
        assert (l ≠ []) as Hne by (intros ->; simpl in *; lia).
        specialize (Hlen Hne).
        rewrite Hcnt in Hmod.
        rewrite Z.add_comm, Z.mod_add in Hmod by lia.
        destruct (decide (Z.of_nat (length (batch w)) = B)) as [|Hneq]; [done|].
        rewrite Z.mod_small in Hmod by lia. lia. }
      exists (log ++ [batch w]). split_and!.
      * unfold replay. rewrite foldl_app. simpl. by rewrite Hs.
      * rewrite concat_app. simpl. rewrite app_nil_r.
        unfold quads in *. rewrite fmap_app. simpl. by rewrite <- Hcat.
      * apply Forall_app. split; [done|]. by constructor.
      * rewrite length_app. simpl. rewrite Hcnt. lia.
      * intros _. simpl. lia.
    + eexists _, _; split; [done|]. unfold reached. simpl.
      split_and!; try done.
      { rewrite length_app; simpl. lia. }
      exists log. split_and!; try done.
      * rewrite app_assoc, Hcat. unfold quads. by rewrite fmap_app.
      * rewrite length_app. simpl. lia.
      * intros _. rewrite length_app. simpl.
        destruct (decide (l = [])) as [->|Hne].
        { simpl in *. destruct (batch w); [simpl; lia|].
          by apply app_eq_nil in Hcat as [_ ?]. }
        specialize (Hlen Hne).
        destruct (decide (Z.of_nat (length (batch w)) = B)) as [Heq|Hneq]; [|lia].
        exfalso. apply Hflush. split; [lia|].
        rewrite Hcnt, Heq.
        replace (Z.of_nat (length log) * B + B) with ((Z.of_nat (length log) + 1) * B) by lia.
        apply Z.mod_mul. lia.
Qed.

End batch_facts.

Section batch_claims.
Import BatchAddGraph.

Lemma reached_nil_batch {S} `{GraphBackend S} g B (s0 : S) w s :
  reached g B s0 [] w s → batch w = [].
Proof.
  intros (_ & _ & _ & log & _ & Hcat & _). simpl in Hcat.
  by apply app_eq_nil in Hcat as [_ ?].
Qed.

(** The flush test of [add] holds exactly when the buffer holds [B]
    quads. *)
Lemma reached_flush_iff {S} `{GraphBackend S} g B (s0 : S) l w s :
  1 ≤ B → reached g B s0 l w s →
  (0 < count w ∧ count w mod B = 0) ↔ Z.of_nat (length (batch w)) = B.
Proof.
  intros HB Hr. pose proof Hr as (_ & _ & Hc & log & _ & _ & _ & Hcnt & Hlen).
  destruct (decide (l = [])) as [->|Hne].
  - apply reached_nil_batch in Hr. rewrite Hr, Hc. simpl. lia.
  - specialize (Hlen Hne). split.
    + intros [_ Hmod]. rewrite Hcnt, Z.add_comm, Z.mod_add in Hmod by lia.
      destruct (decide (Z.of_nat (length (batch w)) = B)) as [|Hneq]; [done|].
      rewrite Z.mod_small in Hmod by lia. lia.
    + intros Heq. split; [lia|]. rewrite Hcnt, Heq.
      replace (Z.of_nat (length log) * B + B)
        with ((Z.of_nat (length log) + 1) * B) by lia.
      apply Z.mod_mul. lia.
Qed.

Lemma replay_store (g : string) (log : list (list quad)) (st : Store) :
  replay g log st = foldl store_add st (concat log).
Proof.
  revert st. induction log as [|b log IH]; intros st; simpl; [done|].
  rewrite foldl_app. apply IH.
Qed.

Lemma replay_log (g : string) (log log0 : list (list quad)) :
  replay g log log0 = log0 ++ log.
Proof.
  revert log0. induction log as [|b log IH]; intros log0; simpl.
  - by rewrite app_nil_r.
  - rewrite IH. unfold graph_addN, log_backend. by rewrite <- app_assoc.
Qed.

Lemma store_add_quads (g : string) (l : list triple) (st : Store) :
  let st' := foldl store_add st (quads g l) in
  ctx_triples st' g = ctx_triples st g ∪ list_to_set l ∧
  (∀ c, c ≠ g → st' !! c = st !! c) ∧
  (l ≠ [] → is_Some (st' !! g)).
Proof.
  revert st. induction l as [|tr l IH]; intros st; simpl.
  - split_and!; [set_solver|done|done].
  - destruct (IH (store_add st (tr, g))) as (Ht & Ho & Hs).
    unfold quads in *. split_and!.
    + rewrite Ht. unfold ctx_triples at 1, store_add. simpl.
      rewrite lookup_insert_eq. simpl. set_solver.
    + intros c Hc. rewrite Ho by done. unfold store_add. simpl.
      by rewrite lookup_insert_ne.
    + intros _. destruct l as [|tr' l]; [|by apply Hs].
      simpl. unfold store_add. simpl. rewrite lookup_insert_eq. eauto.
Qed.

(** A scope that ends normally has inserted the quads of [l], in
    order. *)
Lemma with_batch_store (g : string) (B : Z) (l : list triple) (st : Store) :
  1 ≤ B →
  ∃ w s, add_all (__enter__ (__init__ g B)) st l = Ok (w, s) ∧
    __exit__ w None s = foldl store_add st (quads g l) ∧
    count w = Z.of_nat (length l).
Proof.
  intros HB. destruct (add_all_reached g B st l HB) as (w & s & Hrun & Hr).
  destruct Hr as (Hg & _ & Hc & log & Hs & Hcat & _).
  exists w, s. split_and!; try done. simpl.
  rewrite Hs, Hg. unfold graph_addN at 1, store_backend.
  by rewrite replay_store, <- Hcat, foldl_app.
Qed.

(** C5. For every batch size [B >= 1] and every sequence [l] of triples
    added inside a [_BatchAddGraph] scope that ends normally, the scope
    returns, and the target context then holds what it held before
    together with exactly the triples of [l] (so exactly the set of [l]
    when it did not exist before), whatever [B] is; the other contexts
    are untouched and [count] is the number of triples. *)
Theorem batch_writer_adds_exactly (g : string) (B : Z) (l : list triple)
    (st : Store) :
  1 ≤ B →
  ∃ w st', with_batch g B l st = Ok (w, st') ∧
    ctx_triples st' g = ctx_triples st g ∪ list_to_set l ∧
    (st !! g = None → ctx_triples st' g = list_to_set l) ∧
    (∀ c, c ≠ g → st' !! c = st !! c) ∧
    count w = Z.of_nat (length l).
Proof.
  intros HB. destruct (with_batch_store g B l st HB) as (w & s & Hrun & Hst & Hc).
  exists w, (__exit__ w None s). unfold with_batch. rewrite Hrun.
  split; [done|]. rewrite Hst.
  destruct (store_add_quads g l st) as (Ht & Ho & _).
  split_and!; try done.
  intros Hnone. rewrite Ht. unfold ctx_triples. rewrite Hnone. simpl.
  set_solver.
Qed.

Lemma batch_writer_adds_exactly_witness :
  1 ≤ 2 ∧
  ∃ w st', with_batch "c" 2 [("a","p","b"); ("b","p","c"); ("c","p","a")]
             (∅ : Store) = Ok (w, st') ∧
    ctx_triples st' "c" =
      ctx_triples ∅ "c" ∪ list_to_set [("a","p","b"); ("b","p","c"); ("c","p","a")] ∧
    ((∅ : Store) !! "c" = None →
     ctx_triples st' "c" = list_to_set [("a","p","b"); ("b","p","c"); ("c","p","a")]) ∧
    (∀ c, c ≠ "c" → st' !! c = (∅ : Store) !! c) ∧
    count w = Z.of_nat (length [("a","p","b"); ("b","p","c"); ("c","p","a")]).
Proof.
  split; [lia|]. apply (batch_writer_adds_exactly "c" 2). lia.
Defined.

(** C6, as stated, fails: with [B = 1], after one [add] the buffer holds
    [B] quads, yet no bulk insert has been made and the buffer has not
    been cleared. *)
Lemma batch_not_flushed_on_reaching_threshold :
  ∃ w, add_all (__enter__ (__init__ "c" 1)) ([] : list (list quad)) [("a","p","b")]
         = Ok (w, []) ∧
       batch w = [(("a","p","b"), "c")] ∧
       Z.of_nat (length (batch w)) = batchsize w.
Proof. eexists. split; [reflexivity|]. split; reflexivity. Qed.

(** C6, amended. For every batch size [B >= 1] and every sequence [l] of
    [add] calls, [count] is the number of calls and the buffer holds at
    most [B] quads; the flush happens in the next [add] after the buffer
    has reached [B] quads: that call hands the whole buffer to one
    [addN], clears it and buffers the new triple, and any other [add]
    only appends to the buffer. *)
Theorem batch_flush_on_next_add {S} `{GraphBackend S} (g : string) (B : Z)
    (l : list triple) (tr : triple) (s0 : S) :
  1 ≤ B →
  ∃ w s, add_all (__enter__ (__init__ g B)) s0 l = Ok (w, s) ∧
    count w = Z.of_nat (length l) ∧
    Z.of_nat (length (batch w)) ≤ B ∧
    add w tr s =
      Ok (if decide (Z.of_nat (length (batch w)) = B)
          then ({| graph := g; batch := [(tr, g)];
                   count := count w + 1; batchsize := B |},
                graph_addN g (batch w) s)
          else ({| graph := g; batch := batch w ++ [(tr, g)];
                   count := count w + 1; batchsize := B |}, s)).
Proof.
  intros HB. destruct (add_all_reached g B s0 l HB) as (w & s & Hrun & Hr).
  exists w, s. pose proof (reached_flush_iff g B s0 l w s HB Hr) as Hiff.
  pose proof Hr as (Hg & Hbs & Hc & log & _ & _ & _ & _ & Hlen).
  split_and!; try done.
  - destruct (decide (l = [])) as [->|Hne].
    + apply reached_nil_batch in Hr. rewrite Hr. simpl. lia.
    + apply Hlen in Hne. lia.
  - rewrite add_step by lia. rewrite Hg, Hbs.
    destruct (decide (Z.of_nat (length (batch w)) = B)) as [Heq|Hneq].
    + rewrite decide_True by (by apply Hiff). done.
    + rewrite decide_False by (by rewrite Hiff). done.
Qed.

Lemma batch_flush_on_next_add_witness :
  1 ≤ 2 ∧
  ∃ w s, add_all (__enter__ (__init__ "c" 2)) ([] : list (list quad))
           [("a","p","b"); ("b","p","c")] = Ok (w, s) ∧
    count w = Z.of_nat (length [("a","p","b"); ("b","p","c")]) ∧
    Z.of_nat (length (batch w)) ≤ 2 ∧
    add w ("c","p","a") s =
      Ok (if decide (Z.of_nat (length (batch w)) = 2)
          then ({| graph := "c"; batch := [(("c","p","a"), "c")];
                   count := count w + 1; batchsize := 2 |},
                graph_addN "c" (batch w) s)
          else ({| graph := "c"; batch := batch w ++ [(("c","p","a"), "c")];
                   count := count w + 1; batchsize := 2 |}, s)).
Proof.
  split; [lia|]. apply (batch_flush_on_next_add "c" 2). lia.
Defined.

(** C7. [__exit__] without an exception hands the buffer to one [addN];
    with an exception it leaves the backend as it is.  Hence, after the
    [add] calls of any [l] with [B >= 1]: a normal exit performs the bulk
    inserts [log ++ [batch]], which carry every quad of [l], and an exit
    on an exception performs only [log], so that the quads still
    buffered (at least one when [l] is not empty) are never inserted. *)
Theorem batch_exit_flush_or_discard {S} `{GraphBackend S} (g : string)
    (B : Z) (l : list triple) (e : exn) (s0 : S) :
  1 ≤ B →
  (∀ w (s : S), __exit__ w None s = graph_addN (graph w) (batch w) s) ∧
  (∀ w (s : S), __exit__ w (Some e) s = s) ∧
  ∃ w log,
    add_all (__enter__ (__init__ g B)) s0 l = Ok (w, replay g log s0) ∧
    concat log ++ batch w = quads g l ∧
    (l ≠ [] → batch w ≠ []) ∧
    with_batch g B l s0 = Ok (w, replay g (log ++ [batch w]) s0) ∧
    concat (log ++ [batch w]) = quads g l ∧
    with_batch_raising g B l e s0 = Ok (w, replay g log s0).
Proof.
  intros HB. split; [done|]. split; [done|].
  destruct (add_all_reached g B s0 l HB) as (w & s & Hrun & Hr).
  destruct Hr as (Hg & _ & _ & log & -> & Hcat & _ & _ & Hlen).
  exists w, log. unfold with_batch, with_batch_raising. rewrite Hrun. simpl.
  split_and!; try done.
  - intros Hne Hb. apply Hlen in Hne. rewrite Hb in Hne. simpl in Hne. lia.
  - unfold replay. rewrite foldl_app. simpl. by rewrite Hg.
  - rewrite concat_app. simpl. by rewrite app_nil_r.
Qed.

Lemma batch_exit_flush_or_discard_witness :
  1 ≤ 2 ∧
  ∃ w log,
    add_all (__enter__ (__init__ "c" 2)) ([] : list (list quad))
      [("a","p","b"); ("b","p","c"); ("c","p","a")] = Ok (w, replay "c" log []) ∧
    concat log ++ batch w = quads "c" [("a","p","b"); ("b","p","c"); ("c","p","a")] ∧
    ([("a","p","b"); ("b","p","c"); ("c","p","a")] ≠ [] → batch w ≠ []) ∧
    with_batch "c" 2 [("a","p","b"); ("b","p","c"); ("c","p","a")] []
      = Ok (w, replay "c" (log ++ [batch w]) []) ∧
    concat (log ++ [batch w]) = quads "c" [("a","p","b"); ("b","p","c"); ("c","p","a")] ∧
    with_batch_raising "c" 2 [("a","p","b"); ("b","p","c"); ("c","p","a")] ParseError []
      = Ok (w, replay "c" log []).
Proof.
  split; [lia|].
  apply (batch_exit_flush_or_discard "c" 2 _ ParseError ([] : list (list quad))).
  lia.
Defined.

End batch_claims.

(** ** The scoped resource loader *)

Section loader_claims.
Import PosixPath DataSourceDirLoader.

(** The containment test of [__call__] is a test on the characters of
    the two paths: the escape error is raised exactly when the base
    directory is not a prefix of the canonical path. *)
Lemma call_outside_iff (o : os) (b s : string) :
  s ≠ "" →
  __call__ o (mk (Some b)) s = Raise (LoadFailed OutsideBase) ↔
  String.prefix b (realpath o (if isabs s then s else join b s)) = false.
Proof.
  intros Hs. unfold __call__.
  destruct (String.eqb_spec s "") as [?|_]; [done|].
  destruct (isabs s); simpl;
    (destruct (String.prefix b _); simpl; [|done]);
    (destruct (exists_ o _); simpl; [|done]);
    (destruct (isdir o _); simpl; done).
Qed.

(** C1, at a failing input.  On a filesystem without symbolic links
    where [/srv/e] and [/srv/escape] are directories, the loader with
    base directory [/srv/e] whose [load] returns [../escape] raises no
    error at all: it returns [/srv/escape], which is neither the base
    directory nor below it. *)
Theorem loader_accepts_sibling_of_base :
  let o := plain_os "/" ["/srv/e"; "/srv/escape"] [] in
  ∃ self, __init__ o (PyStr "/srv/e") = Ok self ∧
    base_directory self = Some "/srv/e" ∧
    __call__ o self "../escape" = Ok "/srv/escape" ∧
    spec_within_base "/srv/e" "/srv/escape" = false.
Proof. eexists. repeat split; reflexivity. Qed.

(** C9. A loader built with [base_directory] absent, [None] or any
    other false value has no [base_directory] attribute, and every call
    of it whose [load] returns a non-empty path raises
    [AttributeError]. *)
Theorem loader_without_base_raises_AttributeError (o : os) (base : pyval)
    (s : string) :
  truthy base = false → s ≠ "" →
  ∃ self, __init__ o base = Ok self ∧
    base_directory self = None ∧
    __call__ o self s = Raise AttributeError.
Proof.
  intros Hb Hs. unfold __init__. rewrite Hb. eexists. split; [done|].
  split; [done|]. unfold __call__.
  destruct (String.eqb_spec s "") as [?|_]; [done|].
  by destruct (isabs s).
Qed.

Lemma loader_without_base_raises_AttributeError_witness :
  truthy (PyStr "") = false ∧ "data/source" ≠ "" ∧
  ∃ self, __init__ (plain_os "/" ["/srv"] []) (PyStr "") = Ok self ∧
    base_directory self = None ∧
    __call__ (plain_os "/" ["/srv"] []) self "data/source" = Raise AttributeError.
Proof.
  split; [reflexivity|]. split; [discriminate|].
  apply loader_without_base_raises_AttributeError; [reflexivity|discriminate].
Defined.

End loader_claims.

(** ** Initialisation of the working directory *)

Section init_claims.
Import FS POW.

Lemma lookup_app_None (p q : path) (n : node) :
  lookup p n = None → lookup (p ++ q) n = None.
Proof.
  revert n. induction p as [|name p IH]; intros n; simpl; [done|].
  destruct n as [|es]; [done|]. destruct (entry name es); [apply IH|done].
Qed.

Lemma entry_filter_ne (name : string) (es : list (string * node)) :
  entry name (filter (fun e => e.1 ≠ name) es) = None.
Proof.
  induction es as [|[m c] es IH]; [done|].
  rewrite filter_cons. simpl. case_decide as Hm; simpl; [|done].
  by rewrite decide_False.
Qed.

Lemma entry_fmap (name : string) (f : node → node) (es : list (string * node)) :
  entry name ((fun e => if decide (e.1 = name) then (e.1, f e.2) else e) <$> es)
  = f <$> entry name es.
Proof.
  induction es as [|[m c] es IH]; [done|]. simpl.
  destruct (decide (m = name)) as [->|Hm]; simpl.
  - by rewrite decide_True.
  - by rewrite decide_False.
Qed.

Lemma rmtree_below (name name' : string) (p : path) (es : list (string * node)) :
  rmtree (name :: name' :: p) (Dir es) =
  Dir ((fun e => if decide (e.1 = name)
                 then (e.1, rmtree (name' :: p) e.2) else e) <$> es).
Proof. reflexivity. Qed.

Lemma lookup_Dir (name : string) (p : path) (es : list (string * node)) :
  lookup (name :: p) (Dir es) =
  match entry name es with Some c => lookup p c | None => None end.
Proof. reflexivity. Qed.

(** After [rmtree] nothing is left at the removed path. *)
Lemma lookup_rmtree (p : path) (n : node) :
  p ≠ [] → lookup p (rmtree p n) = None.
Proof.
  revert n. induction p as [|name p IH]; intros n Hp; [done|].
  destruct n as [d|es]; [by destruct p|].
  destruct p as [|name' p'].
  - simpl. by rewrite entry_filter_ne.
  - rewrite rmtree_below, lookup_Dir, entry_fmap.
    destruct (entry name es) as [c|]; simpl; [|done]. by apply IH.
Qed.

Lemma not_exists_lookup (p : path) (fs : node) :
  exists_ p fs = false → lookup p fs = None.
Proof.
  unfold exists_. intros Hex%bool_decide_eq_false.
  destruct (lookup p fs); [|done]. exfalso; eauto.
Qed.

(** On a directory [shutil.rmtree] does not raise. *)
Lemma rmtree_of_directory (p : path) (fs : node) :
  no_file_at p fs → exists_ p fs = true → shutil_rmtree p fs = Ok (rmtree p fs).
Proof.
  unfold exists_, shutil_rmtree. intros Hno [x Hx]%bool_decide_eq_true.
  rewrite Hx. destruct x as [data|es]; [|done]. by apply Hno in Hx.
Qed.

Lemma keeps_no_file_at_ret {A} (p : path) (a : A) : keeps_no_file_at p (io_ret a).
Proof. by intros fs fs' r [= <- _]. Qed.

Lemma keeps_no_file_at_raise {A} (p : path) (e : exn) :
  keeps_no_file_at p (io_raise (A := A) e).
Proof. by intros fs fs' r [= <- _]. Qed.

Lemma keeps_no_file_at_bind {A B} (p : path) (m : io A) (k : A → io B) :
  keeps_no_file_at p m → (∀ a, keeps_no_file_at p (k a)) →
  keeps_no_file_at p (io_bind m k).
Proof.
  intros Hm Hk fs fs' r Hrun Hno. unfold io_bind in Hrun.
  destruct (m fs) as [fs1 [a|e]] eqn:Hm1.
  - eapply Hk; [exact Hrun|]. by eapply Hm.
  - injection Hrun as <- _. by eapply Hm.
Qed.

Lemma entry_replace (name : string) (c' : node) (es : list (string * node)) :
  entry name ((fun e => if decide (e.1 = name) then (e.1, c') else e) <$> es)
  = (fun _ => c') <$> entry name es.
Proof. apply (entry_fmap name (fun _ => c')). Qed.

(** The directory that [makedirs] had to create is there, and empty. *)
Lemma makedirs_creates (p : path) :
  ∀ n n', lookup p n = None → makedirs p n = Ok n' →
  lookup p n' = Some (Dir []).
Proof.
  induction p as [|name p IH]; intros n n' Hnone Hmk; [done|].
  destruct n as [d|es]; [done|]. simpl in Hmk. rewrite lookup_Dir in Hnone.
  destruct (entry name es) as [c|] eqn:He.
  - destruct (makedirs p c) as [c'|e] eqn:Hc; [|done]. simpl in Hmk.
    injection Hmk as <-. rewrite lookup_Dir, entry_replace, He. simpl.
    by apply (IH c).
  - destruct (makedirs p (Dir [])) as [c'|e] eqn:Hc; [|done]. simpl in Hmk.
    injection Hmk as <-. rewrite lookup_Dir. simpl. rewrite decide_True by done.
    destruct p as [|name' p'].
    + simpl in Hc. by injection Hc as <-.
    + by apply (IH (Dir [])).
Qed.

Lemma keeps_no_file_at_ensure_powdir (p : path) :
  keeps_no_file_at p (_ensure_powdir p).
Proof.
  intros fs fs' r Hrun Hno. unfold _ensure_powdir in Hrun.
  destruct (negb (exists_ p fs)) eqn:Hex; [|by injection Hrun as <- _].
  destruct (makedirs p fs) as [fs1|e] eqn:Hmk; injection Hrun as <- _; [|done].
  intros data. rewrite (makedirs_creates p fs fs1); [done| |done].
  by apply not_exists_lookup, negb_true_iff.
Qed.

(** C10, as the code has it. When [init] raises an exception that
    derives from [Exception] and the working directory was a directory
    before the call, nothing is left at the working directory or
    anywhere below it: what was there before the call is deleted with
    what the call created.  The collaborators are taken to put no
    regular file in the place of the working directory, on which
    [shutil.rmtree] would raise and remove nothing. *)
Theorem init_failure_deletes_existing_powdir
    (powdir config_file : path)
    (_init_config_file update_config _init_store : io unit)
    (repository_provider : option (path → io unit))
    (update_existing_config : bool) (fs fs' : node)
    (held : list (string * node)) (e : exn) :
  powdir ≠ [] →
  lookup powdir fs = Some (Dir held) →
  keeps_no_file_at powdir _init_config_file →
  keeps_no_file_at powdir update_config →
  keeps_no_file_at powdir _init_store →
  (∀ provider_init, repository_provider = Some provider_init →
     keeps_no_file_at powdir (provider_init powdir)) →
  init powdir config_file _init_config_file update_config _init_store
    repository_provider update_existing_config fs = (fs', Raise e) →
  isinstance_Exception e = true →
  ∀ q, lookup (powdir ++ q) fs' = None.
Proof.
  intros Hp Hdir Hcfg Hupd Hstore Hprov Hinit He q.
  assert (Hex : exists_ powdir fs = true).
  { unfold exists_. apply bool_decide_eq_true. rewrite Hdir. eauto. }
  assert (Hno : no_file_at powdir fs) by (intros data; by rewrite Hdir).
  unfold init, try_except_Exception in Hinit.
  destruct (io_bind _ _ fs) as [fs1 [[]|e1]] eqn:Hbody; [done|].
  assert (Hno1 : no_file_at powdir fs1).
  { revert Hbody Hno. apply keeps_no_file_at_bind.
    { apply keeps_no_file_at_ensure_powdir. }
    intros _. apply keeps_no_file_at_bind.
    { intros fs0 fs0' r Hrun. destruct (negb _); [by eapply Hcfg|].
      destruct update_existing_config; [by eapply Hupd|].
      by injection Hrun as <- _. }
    intros _. apply keeps_no_file_at_bind; [done|].
    intros _. unfold _init_repository.
    destruct repository_provider as [provider_init|];
      [by apply Hprov|apply keeps_no_file_at_ret]. }
  destruct (isinstance_Exception e1) eqn:He1; [|simplify_eq; congruence].
  unfold io_bind, _ensure_no_powdir, io_raise in Hinit.
  destruct (exists_ powdir fs1) eqn:Hex1.
  - rewrite (rmtree_of_directory _ _ Hno1 Hex1) in Hinit. simplify_eq.
    by apply lookup_app_None, lookup_rmtree.
  - simplify_eq. by apply lookup_app_None, not_exists_lookup.
Qed.

Lemma init_failure_deletes_existing_powdir_witness :
  let held := [("notes", File "kept for years"); ("pow.conf", File "{}")] in
  let fs := Dir [(".pow", Dir held)] in
  let failing : io unit := fun fs => (fs, Raise (OtherException "store")) in
  [".pow"] ≠ [] ∧
  lookup [".pow"] fs = Some (Dir held) ∧
  keeps_no_file_at [".pow"] (io_ret ()) ∧
  keeps_no_file_at [".pow"] failing ∧
  init [".pow"] [".pow"; "pow.conf"] (io_ret ()) (io_ret ()) failing None false fs
    = (Dir [], Raise (OtherException "store")) ∧
  isinstance_Exception (OtherException "store") = true ∧
  ∀ q, lookup ([".pow"] ++ q) (Dir []) = None.
Proof.
  intros held fs failing.
  assert (H1 : [".pow"] ≠ ([] : path)) by discriminate.
  assert (H2 : lookup [".pow"] fs = Some (Dir held)) by reflexivity.
  assert (H3 : keeps_no_file_at [".pow"] (io_ret ()))
    by apply keeps_no_file_at_ret.
  assert (H4 : keeps_no_file_at [".pow"] failing)
    by apply (keeps_no_file_at_raise _ (OtherException "store")).
  assert (H5 : ∀ provider_init, (None : option (path → io unit)) = Some provider_init →
             keeps_no_file_at [".pow"] (provider_init [".pow"])) by done.
  assert (H6 : init [".pow"] [".pow"; "pow.conf"] (io_ret ()) (io_ret ())
                 failing None false fs
               = (Dir [], Raise (OtherException "store"))) by reflexivity.
  assert (H7 : isinstance_Exception (OtherException "store") = true) by reflexivity.
  exact (conj H1 (conj H2 (conj H3 (conj H4 (conj H6 (conj H7
    (init_failure_deletes_existing_powdir _ _ _ _ _ _ _ _ _ held _
       H1 H2 H3 H3 H4 H5 H6 H7))))))).
Defined.

(** [shutil.rmtree] refuses a regular file: when one lies at the path
    of the working directory, [_ensure_no_powdir] raises and the file
    stays. *)
Lemma ensure_no_powdir_on_regular_file :
  let fs := Dir [(".pow", File "not a directory")] in
  _ensure_no_powdir [".pow"] fs = (fs, Raise OSError).
Proof. reflexivity. Qed.

(** C10, as it is worded: an exception that does not derive from
    [Exception] passes the handler of [init], and the working directory
    stays as the call left it.  Here the store is interrupted while it
    opens. *)
Lemma init_interrupted_keeps_powdir :
  let held := [("notes", File "kept for years")] in
  let fs := Dir [(".pow", Dir held)] in
  let interrupted : io unit := fun fs => (fs, Raise KeyboardInterrupt) in
  lookup [".pow"] fs = Some (Dir held) ∧
  init [".pow"] [".pow"; "pow.conf"] (io_ret ()) (io_ret ()) interrupted None
    false fs = (fs, Raise KeyboardInterrupt) ∧
  lookup [".pow"; "notes"] fs = Some (File "kept for years").
Proof. intros held fs interrupted. split_and!; reflexivity. Qed.

End init_claims.

(** ** Strings *)

Section string_facts.
Import Str.
#[local] Arguments Ascii.eqb : simpl never.

Lemma app_nil_l_str (s : string) : "" +:+ s = s.
Proof. reflexivity. Qed.

Lemma app_cons_str (a : ascii) (s t : string) :
  String a s +:+ t = String a (s +:+ t).
Proof. reflexivity. Qed.

Lemma app_assoc_str (s t u : string) : (s +:+ t) +:+ u = s +:+ t +:+ u.
Proof. induction s as [|a s IH]; [done|]. rewrite !app_cons_str. by f_equal. Qed.

Lemma app_length_str (s t : string) :
  String.length (s +:+ t) = (String.length s + String.length t)%nat.
Proof. induction s as [|a s IH]; [done|]. rewrite app_cons_str. simpl. by f_equal. Qed.

Lemma app_inv_tail_str (s1 s2 t : string) : s1 +:+ t = s2 +:+ t → s1 = s2.
Proof.
  revert s2. induction s1 as [|a s1 IH]; intros [|b s2] Heq; [done| | |].
  - apply (f_equal String.length) in Heq.
    rewrite !app_length_str in Heq. simpl in Heq. lia.
  - apply (f_equal String.length) in Heq.
    rewrite !app_length_str in Heq. simpl in Heq. lia.
  - rewrite !app_cons_str in Heq. injection Heq as -> Heq. f_equal. by apply IH.
Qed.

Lemma none_of_app (p : ascii → bool) (s t : string) :
  none_of p (s +:+ t) = (none_of p s && none_of p t)%bool.
Proof.
  induction s as [|a s IH]; [done|]. rewrite app_cons_str. simpl.
  rewrite IH. by rewrite andb_assoc.
Qed.

Lemma none_of_impl (p q : ascii → bool) (s : string) :
  (∀ a, q a = true → p a = true) → none_of p s = true → none_of q s = true.
Proof.
  intros Hpq. induction s as [|a s IH]; [done|]. simpl.
  intros [Ha Hs]%andb_true_iff. apply andb_true_iff. split; [|by apply IH].
  destruct (q a) eqn:Hq; [|done]. apply Hpq in Hq. by rewrite Hq in Ha.
Qed.

(** A string without the separator is one field. *)
Lemma split_none (sep : ascii) (s : string) :
  none_of (Ascii.eqb sep) s = true → split sep s = [s].
Proof.
  induction s as [|a s IH]; [done|]. simpl.
  intros [Ha Hs]%andb_true_iff. rewrite (Ascii.eqb_sym a sep).
  destruct (Ascii.eqb sep a); [done|]. by rewrite IH.
Qed.

Lemma split_app (sep : ascii) (f c : string) :
  none_of (Ascii.eqb sep) f = true →
  split sep (f +:+ String sep c) = f :: split sep c.
Proof.
  induction f as [|a f IH]; simpl.
  - intros _. by rewrite Ascii.eqb_refl.
  - intros [Ha Hs]%andb_true_iff.
    rewrite (Ascii.eqb_sym a sep). destruct (Ascii.eqb sep a); [done|].
    by rewrite IH.
Qed.

Lemma split_nonempty (sep : ascii) (s : string) : split sep s ≠ [].
Proof.
  destruct s as [|a s]; [done|]. simpl.
  destruct (Ascii.eqb a sep); [done|]. by destruct (split sep s).
Qed.

Lemma split_singleton (sep : ascii) (s c : string) :
  split sep s = [c] → s = c ∧ none_of (Ascii.eqb sep) c = true.
Proof.
  revert c. induction s as [|a s IH]; intros c; simpl.
  - by intros [= <-].
  - destruct (Ascii.eqb a sep) eqn:Ha.
    + intros [= _ Hs]. by apply split_nonempty in Hs.
    + destruct (split sep s) as [|x xs] eqn:Hs; [by apply split_nonempty in Hs|].
      intros [= <- ->]. destruct (IH x eq_refl) as [-> Hx].
      split; [done|]. simpl. by rewrite (Ascii.eqb_sym sep a), Ha, Hx.
Qed.

(** Two fields come from exactly one separator. *)
Lemma split_pair (sep : ascii) (s f c : string) :
  split sep s = [f; c] →
  s = f +:+ String sep c ∧
  none_of (Ascii.eqb sep) f = true ∧ none_of (Ascii.eqb sep) c = true.
Proof.
  revert f. induction s as [|a s IH]; intros f; simpl; [done|].
  destruct (Ascii.eqb_spec a sep) as [->|Ha].
  - intros [= <- Hs]. apply split_singleton in Hs as [-> Hc]. by rewrite app_nil_l_str.
  - destruct (split sep s) as [|x xs] eqn:Hs; [done|].
    intros [= <- ->]. destruct (IH x eq_refl) as (-> & Hx & Hc).
    rewrite app_cons_str. split_and!; try done. simpl.
    rewrite Hx. destruct (Ascii.eqb_spec sep a); [by subst|done].
Qed.

Lemma lstrip_nospace (a : ascii) (s : string) :
  isspace a = false → lstrip (String a s) = String a s.
Proof. intros Ha. simpl. by rewrite Ha. Qed.

Lemma rstrip_none (s : string) : none_of isspace s = true → rstrip s = s.
Proof.
  induction s as [|a s IH]; [done|]. simpl.
  intros [Ha Hs]%andb_true_iff. rewrite IH by done.
  destruct s; [|done]. by destruct (isspace a).
Qed.

Lemma rstrip_app_keep (s t : string) :
  rstrip t ≠ "" → rstrip (s +:+ t) = s +:+ rstrip t.
Proof.
  intros Ht. induction s as [|a s IH]; [done|]. rewrite !app_cons_str. simpl.
  rewrite IH. destruct (s +:+ rstrip t) eqn:Hs; [|done].
  destruct s; [|done]. by rewrite app_nil_l_str in Hs.
Qed.

Lemma rstrip_app_drop (s t : string) :
  rstrip t = "" → rstrip (s +:+ t) = rstrip s.
Proof.
  intros Ht. induction s as [|a s IH]; [done|]. rewrite app_cons_str. simpl.
  by rewrite IH.
Qed.

(** The lines of a text that starts with a line [s]. *)
Lemma readlines_app (s rest : string) :
  none_of line_end s = true →
  readlines (s +:+ String "010" rest) = (s +:+ String "010" "") :: readlines rest.
Proof.
  induction s as [|a s IH]; [done|]. rewrite !app_cons_str.
  cbn [none_of readlines]. unfold line_end at 1.
  intros [Ha Hs]%andb_true_iff. apply negb_true_iff, orb_false_iff in Ha as [Ha1 Ha2].
  rewrite Ha1, Ha2. by rewrite IH.
Qed.

(** The lines that iterating over a text file yields make up, one
    after the other, the text that reading it at once gives. *)
Lemma readlines_universal_newlines (s : string) :
  foldr String.append "" (readlines s) = universal_newlines s.
Proof.
  assert (H : ∀ n s, (String.length s ≤ n)%nat →
            foldr String.append "" (readlines s) = universal_newlines s).
  { clear s. induction n as [|n IH]; intros s Hn.
    - destruct s; [done|cbn [String.length] in Hn; lia].
    - destruct s as [|c s]; [done|]. cbn [String.length] in Hn.
      cbn [readlines universal_newlines].
      destruct (Ascii.eqb c "010") eqn:Hlf.
      + apply Ascii.eqb_eq in Hlf as ->.
        change (Ascii.eqb "010" "013") with false.
        cbn [foldr]. rewrite app_cons_str, app_nil_l_str, IH by lia. done.
      + destruct (Ascii.eqb c "013") eqn:Hcr.
        * destruct s as [|c' s']; [done|]. cbn [String.length] in Hn.
          destruct (Ascii.eqb c' "010"); cbn [foldr];
            rewrite app_cons_str, app_nil_l_str, IH by (cbn [String.length]; lia);
            done.
        * specialize (IH s ltac:(lia)).
          destruct (readlines s) as [|l ls]; cbn [foldr] in *.
          -- by rewrite <- IH.
          -- rewrite app_cons_str. by rewrite IH. }
  by apply (H (String.length s)).
Qed.

(** A text without carriage returns is read as it is. *)
Lemma universal_newlines_id (s : string) :
  none_of (Ascii.eqb "013") s = true → universal_newlines s = s.
Proof.
  induction s as [|a s IH]; [done|]. cbn [none_of universal_newlines].
  intros [Ha Hs]%andb_true_iff. apply negb_true_iff in Ha.
  rewrite (Ascii.eqb_sym a "013"), Ha. by rewrite IH.
Qed.

End string_facts.

(** ** The index file and the bulk load *)

Section load_facts.
Import Str POW.
#[local] Arguments Ascii.eqb : simpl never.

Lemma none_of_space (s : string) :
  none_of isspace s = true → none_of (Ascii.eqb " ") s = true.
Proof.
  apply none_of_impl. intros a Ha. apply Ascii.eqb_eq in Ha. by subst.
Qed.

Lemma none_of_newline (s : string) :
  none_of isspace s = true → none_of line_end s = true.
Proof.
  apply none_of_impl. intros a Ha. unfold line_end in Ha.
  apply orb_true_iff in Ha as [Ha|Ha]; apply Ascii.eqb_eq in Ha; by subst.
Qed.

(** A line as [_serialize_graphs] writes it is read back as its two
    fields, when neither is empty or holds white space. *)
Lemma parse_index_line_written (f c : string) :
  f ≠ "" → c ≠ "" →
  none_of isspace f = true → none_of isspace c = true →
  parse_index_line (index_line (f, c)) = Ok (f, c).
Proof.
  intros Hf Hc Hfs Hcs. unfold parse_index_line, index_line, strip. simpl.
  assert (Hr : rstrip (c +:+ String "010" "") = c).
  { rewrite rstrip_app_drop by done. by apply rstrip_none. }
  destruct f as [|a f]; [done|]. rewrite app_cons_str.
  simpl in Hfs. apply andb_true_iff in Hfs as [Ha Hfs].
  rewrite lstrip_nospace by (by destruct (isspace a)).
  rewrite <- app_cons_str.
  rewrite rstrip_app_keep; rewrite (rstrip_app_keep " "); rewrite ?Hr; try done.
  change (" " +:+ c) with (String " " c).
  rewrite split_app.
  - rewrite split_none by (by apply none_of_space). done.
  - apply none_of_space. simpl. by rewrite Ha, Hfs.
Qed.

Lemma spec_split_first_space_app (f c : string) :
  none_of (Ascii.eqb " ") f = true →
  spec_split_first_space (f +:+ String " " c) = Some (f, c).
Proof.
  induction f as [|a f IH]; [done|]. simpl.
  intros [Ha Hs]%andb_true_iff. rewrite (Ascii.eqb_sym a " ").
  destruct (Ascii.eqb " " a); [done|]. by rewrite IH.
Qed.

(** [transaction_manager] is a scope of the kind the load relies on. *)
Lemma transaction_manager_rolls_back : rolls_back transaction_manager.
Proof. intros body st st' e Hb. unfold transaction_manager. by rewrite Hb. Qed.

(** A line on which a round of the loop raises, whatever the store,
    makes the loop raise: no line is skipped. *)
Lemma load_lines_raise (os_open : string → option (list nt_line))
    (dir : graphs_dir) (ls : list string) (l : string) :
  l ∈ ls →
  (∀ st n, ∃ st' e, load_line os_open dir l st n = (st', Raise e)) →
  ∀ st n, ∃ st' e, load_lines os_open dir ls st n = (st', Raise e).
Proof.
  intros Hl Hbad. induction ls as [|l0 ls IH]; intros st n.
  - by apply elem_of_nil in Hl.
  - simpl. destruct (load_line os_open dir l0 st n) as [st1 [n1|e1]] eqn:Hl0;
      [|eauto].
    apply elem_of_cons in Hl as [->|Hl]; [|by apply IH].
    destruct (Hbad st n) as (? & ? & Hb). congruence.
Qed.

(** When the loop raises, the exception leaves the transactional scope,
    and the store is what the scope makes of it: the one the call was
    given. *)
Lemma load_all_raise (scope : transactional)
    (os_open : string → option (list nt_line)) (dir : graphs_dir)
    (idx l : string) (dest : Store) :
  rolls_back scope →
  index dir = Some idx →
  l ∈ readlines idx →
  (∀ st n, ∃ st' e, load_line os_open dir l st n = (st', Raise e)) →
  ∃ st1 e,
    load_lines os_open dir (readlines idx) dest 0 = (st1, Raise e) ∧
    _load_all_graphs_in os_open scope dir dest = (dest, Raise e).
Proof.
  intros Hscope Hidx Hl Hbad. unfold _load_all_graphs_in. rewrite Hidx.
  destruct (load_lines_raise os_open dir _ l Hl Hbad dest 0) as (st1 & e & Hr).
  exists st1, e. split; [done|]. by apply (Hscope _ _ st1).
Qed.

(** The parser stops with an error on a file that holds a line that is
    not a statement. *)
Lemma parse_nt_malformed (f : list nt_line) (text : string)
    (w : BatchAddGraph.t) (st : Store) :
  NMalformed text ∈ f →
  ∃ w' st' e, parse_nt f w st = (w', st', Some e).
Proof.
  revert w st. induction f as [|[tr|text'] f IH]; intros w st Hin.
  - by apply elem_of_nil in Hin.
  - apply elem_of_cons in Hin as [?|Hin]; [done|]. simpl.
    destruct (BatchAddGraph.add w tr st) as [[w1 st1]|e]; [|eauto].
    by apply IH.
  - simpl. eauto.
Qed.

Lemma load_line_parse_error (os_open : string → option (list nt_line))
    (dir : graphs_dir) (l : string) (e : exn) :
  parse_index_line l = Raise e →
  ∀ (st : Store) (n : Z),
    ∃ st' e', load_line os_open dir l st n = (st', Raise e').
Proof. intros Hp st n. unfold load_line. rewrite Hp. eauto. Qed.

(** C8. The line that [_serialize_graphs] prints for the context
    [http://x/a b] of the file [f.nt] is cut at its first space into the
    file name and the identifier by the parsing the specification
    words; [_load_all_graphs] splits it on every space, finds three
    fields for its two names and raises [ValueError], and so does the
    load of an index that holds the line, whatever else there is to
    open. *)
Theorem index_line_second_space_rejected :
  let l := index_line ("f.nt", "http://x/a b") in
  let dir := {| nt_files := {[ "f.nt" := [] ]}; index := Some l |} in
  readlines l = [l] ∧
  spec_split_first_space (strip l) = Some ("f.nt", "http://x/a b") ∧
  split " " (strip l) = ["f.nt"; "http://x/a"; "b"] ∧
  parse_index_line l = Raise ValueError ∧
  ∀ os_open,
    load_lines os_open dir (readlines l) ∅ 0 = (∅, Raise ValueError) ∧
    _load_all_graphs os_open dir ∅ = (∅, Raise ValueError).
Proof.
  intros l dir. split_and!; try reflexivity. intros os_open. split; reflexivity.
Qed.

(** What [parse_index_line] accepts.  For every line [l] of the index
    file, parsing strips the line and splits it on every space.  It
    yields (file name, context identifier) exactly when the stripped
    line holds one space and no more, and then agrees with the cut at
    the first space.  Any other line, one without the separator among
    them, raises [ValueError]; the loop of the load then raises, and in
    a scope that rolls back the store is as it was: the line is never
    skipped. *)
Lemma index_line_exactly_two_fields (scope : transactional)
    (os_open : string → option (list nt_line)) (dir : graphs_dir)
    (idx l : string) (dest : Store) :
  rolls_back scope →
  index dir = Some idx →
  l ∈ readlines idx →
  match parse_index_line l with
  | Ok (f, c) =>
      strip l = f +:+ String " " c ∧
      none_of (Ascii.eqb " ") f = true ∧ none_of (Ascii.eqb " ") c = true ∧
      spec_split_first_space (strip l) = Some (f, c)
  | Raise e =>
      e = ValueError ∧
      (∀ f c, none_of (Ascii.eqb " ") f = true →
              none_of (Ascii.eqb " ") c = true →
              strip l ≠ f +:+ String " " c) ∧
      ∃ e', _load_all_graphs_in os_open scope dir dest = (dest, Raise e')
  end ∧
  (none_of (Ascii.eqb " ") (strip l) = true →
   parse_index_line l = Raise ValueError).
Proof.
  intros Hscope Hidx Hl. split.
  - destruct (parse_index_line l) as [[f c]|e] eqn:Hp.
    + unfold parse_index_line in Hp.
      destruct (split " " (strip l)) as [|f' [|c' [|]]] eqn:Hs; simplify_eq.
      apply split_pair in Hs as (Hs & Hf & Hc). split_and!; try done.
      rewrite Hs. by apply spec_split_first_space_app.
    + split_and!.
      * unfold parse_index_line in Hp.
        by destruct (split " " (strip l)) as [|f' [|c' [|]]]; simplify_eq.
      * intros f c Hf Hc Hs. unfold parse_index_line in Hp.
        rewrite Hs, split_app, split_none in Hp by done. done.
      * destruct (load_all_raise scope os_open dir idx l dest)
          as (st1 & e' & _ & Hr); [done..| |by eauto].
        by eapply load_line_parse_error.
  - intros Hnone. unfold parse_index_line. by rewrite split_none.
Qed.

(** C4. When a line of the index names a triple file that cannot be
    opened, or one that holds a line that is not a statement, the loop
    of the bulk load raises, whatever the lines before it loaded, and
    the exception leaves the one transactional scope that holds the
    whole loop.  With a scope that rolls back, the call raises and the
    store after it is the store before it: no context has been
    populated. *)
Theorem load_aborts_on_missing_or_malformed_file (scope : transactional)
    (os_open : string → option (list nt_line)) (dir : graphs_dir)
    (idx l fname ctx : string) (dest : Store) :
  rolls_back scope →
  index dir = Some idx →
  l ∈ readlines idx →
  parse_index_line l = Ok (fname, ctx) →
  (open_graph_file os_open dir fname = None ∨
   ∃ f text, open_graph_file os_open dir fname = Some f ∧ NMalformed text ∈ f) →
  ∃ st1 e,
    load_lines os_open dir (readlines idx) dest 0 = (st1, Raise e) ∧
    _load_all_graphs_in os_open scope dir dest = (dest, Raise e).
Proof.
  intros Hscope Hidx Hl Hp Hbad. eapply load_all_raise; [done..|].
  intros st n. unfold load_line. rewrite Hp.
  destruct Hbad as [->|(f & text & -> & Hin)]; [eauto|].
  destruct (parse_nt_malformed f text
              (BatchAddGraph.__enter__ (BatchAddGraph.__init__ ctx 4000)) st Hin)
    as (w' & st' & e & ->).
  eauto.
Qed.

Lemma load_aborts_on_missing_or_malformed_file_witness :
  let idx := "a.nt http://x/a
b.nt http://x/b
" in
  let dir := {| nt_files := {[ "a.nt" := [NTriple ("http://x/s","http://x/p","http://x/o")] ]};
                index := Some idx |} in
  let dest : Store := {[ "http://x/c" := {[ ("http://x/c","http://x/p","http://x/d") ]} ]} in
  rolls_back transaction_manager ∧
  index dir = Some idx ∧
  "b.nt http://x/b
" ∈ readlines idx ∧
  parse_index_line "b.nt http://x/b
" = Ok ("b.nt", "http://x/b") ∧
  open_graph_file nothing_else dir "b.nt" = None ∧
  ∃ st1 e,
    load_lines nothing_else dir (readlines idx) dest 0 = (st1, Raise e) ∧
    _load_all_graphs_in nothing_else transaction_manager dir dest = (dest, Raise e).
Proof.
  intros idx dir dest.
  assert (H0 : rolls_back transaction_manager)
    by exact transaction_manager_rolls_back.
  assert (H1 : index dir = Some idx) by reflexivity.
  assert (H2 : "b.nt http://x/b
" ∈ readlines idx)
    by (vm_compute; apply list_elem_of_further, list_elem_of_here).
  assert (H3 : parse_index_line "b.nt http://x/b
" = Ok ("b.nt", "http://x/b")) by reflexivity.
  assert (H4 : open_graph_file nothing_else dir "b.nt" = None) by reflexivity.
  exact (conj H0 (conj H1 (conj H2 (conj H3 (conj H4
    (load_aborts_on_missing_or_malformed_file transaction_manager nothing_else
       dir idx _ _ _ dest H0 H1 H2 H3 (or_introl H4))))))).
Defined.

End load_facts.

(** ** Serialization of the contexts *)

Section serialize_facts.
Import Str POW.
Variable hexdigest : string → string.

#[local] Instance nt_suffix_inj : Inj (=) (=) (fun h : string => h +:+ ".nt").
Proof. intros h1 h2. apply app_inv_tail_str. Qed.

Lemma unused_name_free (fuel : nat) (files : gmap string (list nt_line))
    (hs : string) :
  files !! (hs +:+ ".nt") = None →
  unused_name fuel files hs (hs +:+ ".nt") 1 = Ok (hs +:+ ".nt").
Proof.
  intros Hnone. destruct fuel; simpl;
    rewrite bool_decide_eq_false_2; try done; rewrite Hnone; by intros [??].
Qed.

(** The first round of the loop adds the integer [i] to a string. *)
Lemma unused_name_taken (fuel : nat) (files : gmap string (list nt_line))
    (hs : string) :
  is_Some (files !! (hs +:+ ".nt")) →
  unused_name (Datatypes.S fuel) files hs (hs +:+ ".nt") 1 = Raise TypeError.
Proof. intros Hsome. simpl. by rewrite bool_decide_eq_true_2. Qed.

(** The files written for the contexts [xs]. *)
Lemma serialize_contexts_spec (xs : list (string * gset triple)) :
  ∀ (files : gmap string (list nt_line)) (cd : list (string * string))
    (used : list string),
  (∀ k, is_Some (files !! k) ↔ ∃ h, h ∈ used ∧ k = h +:+ ".nt") →
  if decide (NoDup (hexdigest <$> xs.*1) ∧
             Forall (fun h => h ∉ used) (hexdigest <$> xs.*1))
  then serialize_contexts hexdigest xs files cd =
         Ok (foldl (fun fs x => <[hexdigest x.1 +:+ ".nt" := serialize_nt x.2]> fs)
               files xs,
             cd ++ ((fun x => (hexdigest x.1 +:+ ".nt", x.1)) <$> xs))
  else serialize_contexts hexdigest xs files cd = Raise TypeError.
Proof.
  induction xs as [|[c T] xs IH]; intros files cd used Hinv.
  - rewrite decide_True by (split; constructor). simpl. by rewrite app_nil_r.
  - cbn [serialize_contexts fst snd]. rewrite !fmap_cons. cbn [fst].
    destruct (decide (hexdigest c ∈ used)) as [Hused|Hfresh].
    + rewrite unused_name_taken by (apply Hinv; eauto).
      rewrite decide_False; [done|]. intros [_ Hno].
      by apply Forall_cons in Hno as [Hno _].
    + rewrite unused_name_free.
      2:{ apply eq_None_not_Some. intros (h & Hh & Heq)%Hinv.
          apply app_inv_tail_str in Heq. by subst. }
      cbn [mbind result_bind].
      specialize (IH (<[hexdigest c +:+ ".nt" := serialize_nt T]> files)
                    (cd ++ [(hexdigest c +:+ ".nt", c)]) (hexdigest c :: used)).
      assert (Hinv' : ∀ k,
        is_Some (<[hexdigest c +:+ ".nt" := serialize_nt T]> files !! k) ↔
        ∃ h, h ∈ hexdigest c :: used ∧ k = h +:+ ".nt").
      { intros k. rewrite lookup_insert_is_Some, Hinv. split.
        - intros [<-|[_ (h & Hh & ->)]].
          + exists (hexdigest c). split; [apply list_elem_of_here|done].
          + exists h. split; [by apply list_elem_of_further|done].
        - intros (h & [->|Hh]%elem_of_cons & ->); [by left|].
          destruct (decide (hexdigest c +:+ ".nt" = h +:+ ".nt")); [by left|].
          right. eauto. }
      specialize (IH Hinv').
      destruct (decide (NoDup (hexdigest <$> xs.*1) ∧
                  Forall (fun h => h ∉ hexdigest c :: used) (hexdigest <$> xs.*1)))
        as [[Hnd Hno]|Hbad].
      * rewrite decide_True.
        { rewrite IH. simpl. by rewrite <- app_assoc. }
        rewrite Forall_forall in Hno. split.
        -- constructor; [|done]. intros Hin. apply (Hno _ Hin), list_elem_of_here.
        -- constructor; [done|]. apply Forall_forall. intros h Hin Hu.
           apply (Hno _ Hin). by apply list_elem_of_further.
      * rewrite decide_False; [done|]. intros [Hnd Hno]. apply Hbad.
        apply NoDup_cons in Hnd as [Hc Hnd]. split; [done|].
        apply Forall_cons in Hno as [_ Hno]. rewrite Forall_forall in Hno.
        apply Forall_forall. intros h Hin [->|Hu]%elem_of_cons; [done|].
        by apply (Hno h).
Qed.

(** Without a collision every context gets the file named after its
    digest, and the index lists them sorted. *)
Lemma serialize_graphs_distinct (before : option graphs_dir) (g : Store) :
  NoDup (hexdigest <$> (contexts g).*1) →
  _serialize_graphs hexdigest before g =
    Ok {| nt_files :=
            foldl (fun fs x => <[hexdigest x.1 +:+ ".nt" := serialize_nt x.2]> fs)
              ∅ (contexts g);
          index :=
            Some (foldr (fun l text => index_line l +:+ text) ""
                    (merge_sort pair_le
                       ((fun x => (hexdigest x.1 +:+ ".nt", x.1)) <$> contexts g))) |}.
Proof.
  intros Hnd. unfold _serialize_graphs.
  pose proof (serialize_contexts_spec (contexts g) ∅ [] []) as Hspec.
  rewrite decide_True in Hspec.
  - rewrite Hspec; [done|]. intros k. rewrite lookup_empty. split.
    + by intros [??].
    + intros (h & Hh & _). by apply elem_of_nil in Hh.
  - split; [done|]. apply Forall_forall. intros h _ Hh. by apply elem_of_nil in Hh.
Qed.

(** C2, where the code fails.  Whenever two contexts of the store have
    identifiers with the same digest, the serialization pass finds the
    file of the first in place, enters the renaming loop, and raises
    [TypeError] in its first round: the second context is not written
    and no index is. *)
Theorem serialize_collision_raises_TypeError (before : option graphs_dir)
    (g : Store) :
  ¬ NoDup (hexdigest <$> (contexts g).*1) →
  _serialize_graphs hexdigest before g = Raise TypeError.
Proof.
  intros Hdup. unfold _serialize_graphs.
  pose proof (serialize_contexts_spec (contexts g) ∅ [] []) as Hspec.
  rewrite decide_False in Hspec by (by intros [? _]).
  rewrite Hspec; [done|]. intros k. rewrite lookup_empty. split.
  - by intros [??].
  - intros (h & Hh & _). by apply elem_of_nil in Hh.
Qed.

End serialize_facts.

Lemma serialize_collision_raises_TypeError_witness :
  let g : Store := {[ "http://x/a" := {[ ("a","p","b") ]};
                      "http://x/b" := {[ ("b","p","c") ]} ]} in
  let digest := fun _ : string => "2c26b46b68ffc68f" in
  ¬ NoDup (digest <$> (POW.contexts g).*1) ∧
  POW._serialize_graphs digest None g = Raise TypeError.
Proof.
  intros g digest.
  assert (H1 : ¬ NoDup (digest <$> (POW.contexts g).*1)).
  { vm_compute. intros Hnd. apply NoDup_cons in Hnd as [Hin _].
    apply Hin, list_elem_of_here. }
  exact (conj H1 (serialize_collision_raises_TypeError digest None g H1)).
Defined.

(** ** Serialization followed by the bulk load *)

Section roundtrip_facts.
Import Str POW.
Variable hexdigest : string → string.
#[local] Existing Instance nt_suffix_inj.

Lemma readlines_index (E : list (string * string)) :
  Forall (fun e => none_of line_end e.1 = true ∧
                   none_of line_end e.2 = true) E →
  readlines (foldr (fun l text => index_line l +:+ text) "" E) = index_line <$> E.
Proof.
  induction 1 as [|e E [H1 H2] _ IH]; [done|]. simpl.
  assert (Hline : ∀ text, index_line e +:+ text =
                          (e.1 +:+ " " +:+ e.2) +:+ String "010" text).
  { intros text. unfold index_line. by rewrite !app_assoc_str. }
  rewrite Hline, readlines_app, IH.
  - f_equal. unfold index_line. by rewrite !app_assoc_str.
  - rewrite !none_of_app, H1, H2. done.
Qed.

Lemma parse_nt_triples (l : list triple) :
  ∀ (w w' : BatchAddGraph.t) (st st' : Store),
  BatchAddGraph.add_all w st l = Ok (w', st') →
  parse_nt (NTriple <$> l) w st = (w', st', None).
Proof.
  induction l as [|tr l IH]; intros w w' st st' Hrun; simpl in *.
  - by simplify_eq.
  - destruct (BatchAddGraph.add w tr st) as [[w1 st1]|e]; [|done].
    by apply IH.
Qed.

(** Loading the file of a context that the store does not have yet
    creates the context with the triples of the file. *)
Lemma load_context_insert (c : string) (T : gset triple) (st : Store) :
  st !! c = None → T ≠ ∅ →
  foldl store_add st
    (BatchAddGraph.quads c (merge_sort triple_le (elements T))) = <[c := T]> st.
Proof.
  intros Hnone HT.
  destruct (store_add_quads c (merge_sort triple_le (elements T)) st)
    as (Ht & Ho & Hs).
  assert (Hset : list_to_set (merge_sort triple_le (elements T)) = T).
  { rewrite merge_sort_Permutation. apply list_to_set_elements_L. }
  assert (Hne : merge_sort triple_le (elements T) ≠ []).
  { intros Hnil. apply HT. rewrite <- Hset, Hnil. done. }
  apply map_eq. intros k. destruct (decide (k = c)) as [->|Hk].
  - rewrite lookup_insert_eq. destruct (Hs Hne) as [X HX].
    unfold ctx_triples in Ht. rewrite HX, Hnone, Hset in Ht. simpl in Ht.
    rewrite HX, Ht. f_equal. set_solver.
  - rewrite lookup_insert_ne by done. by apply Ho.
Qed.

(** The loop over the lines written for the entries [E], each naming a
    context of [g] that the store does not have yet. *)
Lemma load_lines_written (os_open : string → option (list nt_line))
    (dir : graphs_dir) (g : Store) (E : list (string * string)) :
  NoDup E.*2 →
  ∀ (st : Store) (n : Z),
  Forall (fun e =>
    e.1 ≠ "" ∧ e.2 ≠ "" ∧
    none_of isspace e.1 = true ∧ none_of isspace e.2 = true ∧
    st !! e.2 = None ∧
    ∃ T, g !! e.2 = Some T ∧ T ≠ ∅ ∧
         nt_files dir !! e.1 = Some (serialize_nt T)) E →
  ∃ n', load_lines os_open dir (index_line <$> E) st n =
          (list_to_map ((fun e => (e.2, default ∅ (g !! e.2))) <$> E) ∪ st, Ok n').
Proof.
  induction E as [|[f c] E IH]; intros Hnd st n HE.
  - simpl. exists n. by rewrite (left_id_L ∅ (∪)).
  - apply Forall_cons in HE as [(Hf & Hc & Hfs & Hcs & Hst & T & Hg & HT & Hfile) HE].
    simpl in *. apply NoDup_cons in Hnd as [Hc_notin Hnd].
    unfold load_line, open_graph_file.
    rewrite parse_index_line_written by done.
    rewrite Hfile. unfold serialize_nt.
    destruct (with_batch_store c 4000 (merge_sort triple_le (elements T)) st)
      as (w & s & Hrun & Hexit & _); [lia|].
    rewrite (parse_nt_triples _ _ _ _ _ Hrun), Hexit.
    rewrite load_context_insert by done.
    destruct (IH Hnd (<[c := T]> st) (n + BatchAddGraph.count w)) as [n' Hn'].
    { rewrite Forall_forall in HE. apply Forall_forall. intros e He.
      destruct (HE e He) as (? & ? & ? & ? & Hnone & ?). split_and!; try done.
      rewrite lookup_insert_ne; [done|]. intros ->. apply Hc_notin.
      apply list_elem_of_fmap. eauto. }
    exists n'. etrans; [exact Hn'|]. f_equal. rewrite Hg. simpl.
    assert (Hm : (list_to_map ((fun e => (e.2, default ∅ (g !! e.2))) <$> E)
                   : Store) !! c = None).
    { apply not_elem_of_list_to_map_1. rewrite <- list_fmap_compose. done. }
    rewrite <- insert_union_l. by rewrite <- insert_union_r.
Qed.

Lemma written_files_other (xs : list (string * gset triple))
    (files : gmap string (list nt_line)) (k : string) :
  k ∉ (fun x => hexdigest x.1 +:+ ".nt") <$> xs →
  foldl (fun fs x => <[hexdigest x.1 +:+ ".nt" := serialize_nt x.2]> fs) files xs !! k
  = files !! k.
Proof.
  revert files. induction xs as [|x xs IH]; intros files Hk; [done|].
  simpl. rewrite fmap_cons in Hk. apply not_elem_of_cons in Hk as [Hx Hk].
  rewrite IH by done. by rewrite lookup_insert_ne.
Qed.

Lemma written_files_lookup (xs : list (string * gset triple))
    (files : gmap string (list nt_line)) (x : string * gset triple) :
  NoDup ((fun x => hexdigest x.1 +:+ ".nt") <$> xs) → x ∈ xs →
  foldl (fun fs x => <[hexdigest x.1 +:+ ".nt" := serialize_nt x.2]> fs) files xs
    !! (hexdigest x.1 +:+ ".nt") = Some (serialize_nt x.2).
Proof.
  revert files. induction xs as [|x0 xs IH]; intros files Hnd Hx.
  - by apply elem_of_nil in Hx.
  - rewrite fmap_cons in Hnd. apply NoDup_cons in Hnd as [Hx0 Hnd].
    simpl. apply elem_of_cons in Hx as [->|Hx]; [|by apply IH].
    rewrite written_files_other by done. by rewrite lookup_insert_eq.
Qed.

(** C3. A store with the one context [http://x/a b], holding one
    statement, is serialized without error: the statement goes to a
    file and the index gets the line naming the file and the
    identifier.  The bulk load of what was written into an empty store
    then raises [ValueError] on that line, which has three fields where
    the loop unpacks two, before any file is opened: nothing is loaded,
    whatever the transactional scope does and whatever else there is to
    open. *)
Theorem roundtrip_fails_on_identifier_with_space :
  let T : gset triple := {[ ("http://x/s", "http://x/p", "http://x/o") ]} in
  let g : Store := {[ "http://x/a b" := T ]} in
  ∃ dir, _serialize_graphs example_hexdigest None g = Ok dir ∧
    nt_files dir = {[ "687474703a2f2f782f612062.nt" := serialize_nt T ]} ∧
    index dir = Some "687474703a2f2f782f612062.nt http://x/a b
" ∧
    ∀ os_open,
      load_lines os_open dir (from_option readlines [] (index dir)) ∅ 0
        = (∅, Raise ValueError) ∧
      _load_all_graphs os_open dir ∅ = (∅, Raise ValueError).
Proof.
  eexists. split; [reflexivity|]. split; [reflexivity|].
  split; [reflexivity|]. intros os_open. split; reflexivity.
Qed.

(** The round trip where it holds.  For any store whose contexts are
    not empty and whose context identifiers are not empty, hold no
    white space and have pairwise distinct digests (a digest holding no
    white space either), serializing all contexts and bulk-loading what
    was written into an empty store both succeed, and the loaded store
    is the serialized one: the same context identifiers, each with the
    same set of triples. *)
Lemma serialize_load_roundtrip (os_open : string → option (list nt_line))
    (before : option graphs_dir) (g : Store) :
  NoDup (hexdigest <$> (contexts g).*1) →
  Forall (fun x => x.1 ≠ "" ∧ none_of isspace x.1 = true ∧
                   none_of isspace (hexdigest x.1) = true ∧ x.2 ≠ ∅)
    (contexts g) →
  ∃ dir n, _serialize_graphs hexdigest before g = Ok dir ∧
    _load_all_graphs os_open dir ∅ = (g, Ok n).
Proof.
  intros Hnd Hall. rewrite serialize_graphs_distinct by done.
  set (entry_of := fun x : string * gset triple => (hexdigest x.1 +:+ ".nt", x.1)).
  set (E := merge_sort pair_le (entry_of <$> contexts g)).
  set (dir := {| nt_files := _; index := _ |}).
  assert (HE : E ≡ₚ entry_of <$> contexts g) by apply merge_sort_Permutation.
  assert (Hsnd : E.*2 ≡ₚ (contexts g).*1).
  { rewrite HE, <- list_fmap_compose. done. }
  assert (Hfiles : NoDup ((fun x => hexdigest x.1 +:+ ".nt") <$> contexts g)).
  { replace ((fun x : string * gset triple => hexdigest x.1 +:+ ".nt") <$> contexts g)
      with ((fun h => h +:+ ".nt") <$> (hexdigest <$> (contexts g).*1))
      by (by rewrite <- !list_fmap_compose).
    apply (NoDup_fmap_2 _), Hnd. }
  rewrite Forall_forall in Hall.
  assert (Hentries : ∀ e, e ∈ E →
    ∃ x, x ∈ contexts g ∧ e = entry_of x).
  { intros e He. rewrite HE in He. apply list_elem_of_fmap in He as (x & -> & Hx).
    eauto. }
  destruct (load_lines_written os_open dir g E) with (st := (∅ : Store)) (n := 0)
    as [n Hload].
  { rewrite Hsnd. apply NoDup_fst_map_to_list. }
  { apply Forall_forall. intros e (x & Hx & ->)%Hentries.
    destruct (Hall x Hx) as (Hc & Hcs & Hhs & HT). simpl.
    split_and!; try done.
    - by destruct (hexdigest x.1).
    - by rewrite none_of_app, Hhs.
    - exists x.2. split_and!; try done.
      + apply elem_of_map_to_list. by destruct x.
      + by apply written_files_lookup. }
  exists dir, n. split; [done|].
  unfold _load_all_graphs, _load_all_graphs_in, transaction_manager.
  cbn [index dir].
  rewrite readlines_index.
  2:{ apply Forall_forall. intros e (x & Hx & ->)%Hentries.
      destruct (Hall x Hx) as (Hc & Hcs & Hhs & HT). simpl. split.
      - rewrite none_of_app. rewrite (none_of_newline _ Hhs). done.
      - by apply none_of_newline. }
  fold E. rewrite Hload. f_equal.
  rewrite (right_id_L ∅ (∪)).
  etrans; [|apply (list_to_map_to_list g)].
  apply list_to_map_proper.
  { rewrite <- list_fmap_compose. simpl.
    change (NoDup E.*2). rewrite Hsnd. apply NoDup_fst_map_to_list. }
  rewrite HE, <- list_fmap_compose.
  apply Permutation_refl'. etrans; [|apply list_fmap_id].
  apply list_fmap_ext. intros i [c T] Hi. simpl.
  apply list_elem_of_lookup_2, elem_of_map_to_list in Hi. by rewrite Hi.
Qed.

End roundtrip_facts.

(** * Further properties *)

(** ** [_BatchAddGraph], beyond the claims *)

Section batch_more.
Import BatchAddGraph.

(** X1. With a batch size of zero the first [add] is buffered without
    any insert, and the second raises [ZeroDivisionError], whatever the
    triples and the backend are. *)
Theorem batch_size_zero_second_add_raises {S} `{GraphBackend S} (g : string)
    (tr1 tr2 : triple) (l : list triple) (s : S) :
  add_all (__enter__ (__init__ g 0)) s [tr1] =
    Ok ({| graph := g; batch := [(tr1, g)]; count := 1; batchsize := 0 |}, s) ∧
  add_all (__enter__ (__init__ g 0)) s (tr1 :: tr2 :: l) = Raise ZeroDivisionError.
Proof. split; reflexivity. Qed.

Lemma length_concat_full (B : Z) (log : list (list quad)) :
  Forall (fun b => Z.of_nat (length b) = B) log →
  Z.of_nat (length (concat log)) = Z.of_nat (length log) * B.
Proof.
  induction 1 as [|b log Hb _ IH]; [done|]. simpl.
  rewrite length_app. lia.
Qed.

Lemma full_batches_count (B n k m : Z) :
  1 ≤ B → n = k * B + m → 1 ≤ m ≤ B → k = (n - 1) / B.
Proof. intros HB Hn Hm. apply (Z.div_unique _ _ _ (m - 1)); lia. Qed.

(** X2. The bulk inserts of a scope that ends normally, seen by a
    backend that records them: for [B >= 1] and [n] triples there are
    [(n - 1) / B + 1] calls (one call, with nothing, when [n = 0]); every
    call but the last carries exactly [B] quads, the last at most [B],
    and together they carry the quads added, in order. *)
Theorem batch_bulk_insert_calls (g : string) (B : Z) (l : list triple) :
  1 ≤ B →
  ∃ w full last,
    with_batch g B l ([] : list (list quad)) = Ok (w, full ++ [last]) ∧
    concat (full ++ [last]) = quads g l ∧
    Forall (fun b => Z.of_nat (length b) = B) full ∧
    Z.of_nat (length last) ≤ B ∧
    (l = [] → full = [] ∧ last = []) ∧
    (l ≠ [] → last ≠ [] ∧
              Z.of_nat (length (full ++ [last])) = (Z.of_nat (length l) - 1) / B + 1).
Proof.
  intros HB. destruct (add_all_reached g B ([] : list (list quad)) l HB)
    as (w & s & Hrun & Hr).
  pose proof Hr as (Hg & _ & Hc & log & Hs & Hcat & Hfull & Hcnt & Hlen).
  rewrite replay_log in Hs. simpl in Hs. subst s.
  exists w, log, (batch w). unfold with_batch. rewrite Hrun.
  split_and!.
  - simpl. by rewrite Hg.
  - rewrite concat_app. simpl. by rewrite app_nil_r.
  - done.
  - destruct (decide (l = [])) as [->|Hne].
    + apply reached_nil_batch in Hr. rewrite Hr. simpl. lia.
    + apply Hlen in Hne. lia.
  - intros ->. pose proof (reached_nil_batch _ _ _ _ _ Hr) as Hb.
    split; [|done]. rewrite Hb in Hcat. rewrite app_nil_r in Hcat.
    destruct log as [|b log]; [done|].
    apply Forall_cons in Hfull as [Hb0 _]. simpl in Hcat.
    apply app_eq_nil in Hcat as [-> _]. simpl in Hb0. lia.
  - intros Hne. pose proof (Hlen Hne) as Hlen'. split.
    + intros Hb. rewrite Hb in Hlen'. simpl in Hlen'. lia.
    + rewrite length_app. simpl.
      rewrite Nat2Z.inj_add.
      rewrite (full_batches_count B _ _ _ HB Hcnt Hlen'), Hc. lia.
Qed.

Lemma batch_bulk_insert_calls_witness :
  1 ≤ 2 ∧
  ∃ w full last,
    with_batch "c" 2 [("a","p","b"); ("b","p","c"); ("c","p","a")]
      ([] : list (list quad)) = Ok (w, full ++ [last]) ∧
    concat (full ++ [last]) = quads "c" [("a","p","b"); ("b","p","c"); ("c","p","a")] ∧
    Forall (fun b => Z.of_nat (length b) = 2) full ∧
    Z.of_nat (length last) ≤ 2 ∧
    ([("a","p","b"); ("b","p","c"); ("c","p","a")] = [] → full = [] ∧ last = []) ∧
    ([("a","p","b"); ("b","p","c"); ("c","p","a")] ≠ [] → last ≠ [] ∧
       Z.of_nat (length (full ++ [last])) = (Z.of_nat 3 - 1) / 2 + 1).
Proof.
  split; [lia|]. apply (batch_bulk_insert_calls "c" 2). lia.
Defined.

(** X3. When the scope is left on an exception after [n] triples were
    added, the store holds, beside what it held, exactly the first
    [((n - 1) / B) * B] triples added (none when [n = 0]): the full
    batches flushed so far.  The triples after them, between one and [B]
    of them when [n > 0], are lost. *)
Theorem batch_exception_keeps_full_batches (g : string) (B : Z)
    (l : list triple) (e : exn) (st : Store) :
  1 ≤ B →
  let kept := Z.to_nat ((Z.of_nat (length l) - 1) / B * B) in
  ∃ w, with_batch_raising g B l e st =
         Ok (w, foldl store_add st (quads g (take kept l))) ∧
       batch w = quads g (drop kept l) ∧
       (l ≠ [] → 1 ≤ Z.of_nat (length (drop kept l)) ≤ B).
Proof.
  intros HB kept. destruct (add_all_reached g B st l HB) as (w & s & Hrun & Hr).
  pose proof Hr as (Hg & _ & Hc & log & Hs & Hcat & Hfull & Hcnt & Hlen).
  exists w. unfold with_batch_raising. rewrite Hrun. simpl.
  assert (Hk : length (concat log) = kept).
  { apply Nat2Z.inj. rewrite (length_concat_full B) by done. unfold kept.
    destruct (decide (l = [])) as [->|Hne].
    - simpl in *. assert (length log = 0)%nat as -> by nia.
      change (Z.of_nat 0 - 1) with (-1).
      assert (-1 / B = -1) as ->.
      { symmetry. apply (Z.div_unique _ _ _ (B - 1)); lia. }
      lia.
    - rewrite (full_batches_count B _ _ _ HB Hcnt (Hlen Hne)), Hc.
      rewrite Z2Nat.id; [done|].
      apply Z.mul_nonneg_nonneg; [|lia]. apply Z.div_pos; [|lia].
      destruct l; [done|]. simpl. lia. }
  assert (Htake : concat log = quads g (take kept l)).
  { unfold quads in *. rewrite fmap_take, <- Hcat, <- Hk.
    by rewrite take_app_length. }
  assert (Hdrop : batch w = quads g (drop kept l)).
  { unfold quads in *. rewrite fmap_drop, <- Hcat, <- Hk.
    by rewrite drop_app_length. }
  split_and!.
  - rewrite Hs, replay_store, Htake. done.
  - done.
  - intros Hne. apply Hlen in Hne. rewrite Hdrop in Hne. unfold quads in Hne.
    rewrite length_fmap in Hne. lia.
Qed.

Lemma batch_exception_keeps_full_batches_witness :
  1 ≤ 2 ∧
  let l := [("a","p","b"); ("b","p","c"); ("c","p","a")] in
  let kept := Z.to_nat ((Z.of_nat (length l) - 1) / 2 * 2) in
  ∃ w, with_batch_raising "c" 2 l ParseError (∅ : Store) =
         Ok (w, foldl store_add ∅ (quads "c" (take kept l))) ∧
       batch w = quads "c" (drop kept l) ∧
       (l ≠ [] → 1 ≤ Z.of_nat (length (drop kept l)) ≤ 2).
Proof.
  split; [lia|]. apply (batch_exception_keeps_full_batches "c" 2). lia.
Defined.

End batch_more.

(** ** The scoped resource loader, beyond the claims *)

Section loader_more.
Import PosixPath DataSourceDirLoader.

(** X4. A call that returns has checked everything: the loader has a
    base directory, the result of [load] was not empty, and the path
    returned is the canonical form of that result (joined to the base
    directory when relative), has the base directory as a prefix, exists
    and is a directory. *)
Theorem loader_success_postconditions (o : os) (self : t) (s p : string) :
  __call__ o self s = Ok p →
  s ≠ "" ∧
  ∃ b, base_directory self = Some b ∧
    p = realpath o (if isabs s then s else join b s) ∧
    String.prefix b p = true ∧ exists_ o p = true ∧ isdir o p = true.
Proof.
  unfold __call__. destruct (String.eqb_spec s "") as [|Hs]; [done|].
  destruct self as [[b|]]; simpl; [|by destruct (isabs s)].
  intros Hcall. split; [done|]. exists b. split; [done|].
  destruct (isabs s); simpl in Hcall;
    destruct (String.prefix b _) eqn:Hp; simpl in Hcall; try done;
    destruct (exists_ o _) eqn:He; simpl in Hcall; try done;
    destruct (isdir o _) eqn:Hd; simpl in Hcall; try done;
    injection Hcall as <-; done.
Qed.

Lemma loader_success_postconditions_witness :
  let o := plain_os "/" ["/srv/e"; "/srv/e/sub/dir"] ["/srv/e/sub/file"] in
  let self := {| base_directory := Some "/srv/e" |} in
  __call__ o self "sub/./dir" = Ok "/srv/e/sub/dir" ∧
  "sub/./dir" ≠ "" ∧
  ∃ b, base_directory self = Some b ∧
    "/srv/e/sub/dir" = realpath o (if isabs "sub/./dir" then "sub/./dir" else join b "sub/./dir") ∧
    String.prefix b "/srv/e/sub/dir" = true ∧
    exists_ o "/srv/e/sub/dir" = true ∧ isdir o "/srv/e/sub/dir" = true.
Proof.
  intros o self.
  assert (H1 : __call__ o self "sub/./dir" = Ok "/srv/e/sub/dir") by reflexivity.
  exact (conj H1 (loader_success_postconditions o self _ _ H1)).
Defined.

(** X5. Every failure of a call is decided in a fixed order: an empty
    result of [load] is [LoadFailed] for an empty result, whatever the
    loader; otherwise a loader without base directory raises
    [AttributeError]; otherwise the error is [LoadFailed], for a path
    outside the base directory if the base directory is not a prefix of
    the canonical path, else for a path that does not exist, else for a
    path that is not a directory. *)
Theorem loader_failure_order (o : os) (self : t) (s : string) (e : exn) :
  __call__ o self s = Raise e →
  if String.eqb s "" then e = LoadFailed EmptyResult
  else match base_directory self with
       | None => e = AttributeError
       | Some b =>
           let rpath := realpath o (if isabs s then s else join b s) in
           if negb (String.prefix b rpath) then e = LoadFailed OutsideBase
           else if negb (exists_ o rpath) then e = LoadFailed Nonexistent
           else e = LoadFailed NotADirectory ∧ isdir o rpath = false
       end.
Proof.
  unfold __call__. destruct (String.eqb s ""); [by intros [= <-]|].
  destruct self as [[b|]]; simpl; [|by destruct (isabs s); intros [= <-]].
  destruct (isabs s); simpl;
    (destruct (String.prefix b _); simpl; [|by intros [= <-]]);
    (destruct (exists_ o _); simpl; [|by intros [= <-]]);
    (destruct (isdir o _); simpl; [done|by intros [= <-]]).
Qed.

Lemma loader_failure_order_witness :
  let o := plain_os "/" ["/srv/e"; "/srv/e/sub"] ["/srv/e/sub/file"] in
  let self := {| base_directory := Some "/srv/e" |} in
  __call__ o self "sub/file" = Raise (LoadFailed NotADirectory) ∧
  LoadFailed NotADirectory = LoadFailed NotADirectory ∧
  isdir o "/srv/e/sub/file" = false.
Proof.
  intros o self.
  assert (H1 : __call__ o self "sub/file" = Raise (LoadFailed NotADirectory))
    by reflexivity.
  exact (conj H1 (loader_failure_order o self _ _ H1)).
Defined.

Lemma isabs_cons (a : ascii) (s : string) :
  isabs (String a s) = bool_decide (a = "/"%char).
Proof.
  unfold isabs.
  change (String.prefix "/" (String a s))
    with (if ascii_dec "/" a then String.prefix "" s else false).
  destruct (ascii_dec "/" a) as [<-|Hne].
  - rewrite bool_decide_eq_true_2 by done. by destruct s.
  - by rewrite bool_decide_eq_false_2.
Qed.

Lemma isabs_app (b x : string) : isabs b = true → isabs (b +:+ x) = true.
Proof.
  destruct b as [|a b]; [done|]. rewrite app_cons_str. by rewrite !isabs_cons.
Qed.

Lemma join_relative (b s : string) :
  isabs s = false →
  join b s = b +:+ s ∨ join b s = b +:+ "/" +:+ s.
Proof.
  unfold join, isabs. intros ->. destruct (_ || _)%bool; auto.
Qed.

(** X6. A relative result of [load] is resolved against the base
    directory, not the working directory: for a loader whose base
    directory is absolute, the call answers for a relative path exactly
    what it answers for that path joined to the base directory. *)
Theorem loader_relative_is_joined_to_base (o : os) (b s : string) :
  isabs b = true → isabs s = false → s ≠ "" →
  __call__ o {| base_directory := Some b |} s =
  __call__ o {| base_directory := Some b |} (join b s).
Proof.
  intros Hb Hs Hne.
  assert (Habs : isabs (join b s) = true).
  { destruct (join_relative b s Hs) as [-> | ->]; by apply isabs_app. }
  assert (Hnonempty : join b s ≠ "").
  { intros Heq. by rewrite Heq in Habs. }
  unfold __call__.
  destruct (String.eqb_spec s "") as [|_]; [done|].
  destruct (String.eqb_spec (join b s) "") as [|_]; [done|].
  rewrite Hs, Habs. done.
Qed.

Lemma loader_relative_is_joined_to_base_witness :
  let o := plain_os "/tmp" ["/srv/e"; "/srv/e/sub"] [] in
  isabs "/srv/e" = true ∧ isabs "sub" = false ∧ "sub" ≠ "" ∧
  __call__ o {| base_directory := Some "/srv/e" |} "sub" =
  __call__ o {| base_directory := Some "/srv/e" |} (join "/srv/e" "sub").
Proof.
  intros o.
  assert (H1 : isabs "/srv/e" = true) by reflexivity.
  assert (H2 : isabs "sub" = false) by reflexivity.
  assert (H3 : "sub" ≠ "") by discriminate.
  exact (conj H1 (conj H2 (conj H3
    (loader_relative_is_joined_to_base o _ _ H1 H2 H3)))).
Defined.

End loader_more.

(** ** The working directory, beyond the claims *)

Section workdir_more.
Import FS POW.

Lemma lookup_nonempty_Dir_nil (name : string) (p : path) :
  lookup (name :: p) (Dir []) = None.
Proof. reflexivity. Qed.

(** [makedirs] fails only on a file in the way. *)
Lemma makedirs_fails (p : path) :
  ∀ n e, makedirs p n = Raise e → e = OSError.
Proof.
  induction p as [|name p IH]; intros n e Hmk; [done|].
  destruct n as [d|es]; simpl in Hmk; [by injection Hmk|].
  destruct (entry name es) as [c|].
  - destruct (makedirs p c) as [c'|e'] eqn:Hc; [done|]. simpl in Hmk.
    injection Hmk as <-. by apply (IH c).
  - destruct (makedirs p (Dir [])) as [c'|e'] eqn:Hc; [done|]. simpl in Hmk.
    injection Hmk as <-. by apply (IH (Dir [])).
Qed.

(** X7. [_ensure_powdir] leaves a working directory that exists
    untouched; one that does not exist is created as an empty
    directory; and when it raises, which it does with [OSError] only,
    nothing has changed. *)
Theorem ensure_powdir_postcondition (powdir : path) (fs : node) :
  match _ensure_powdir powdir fs with
  | (fs', Ok _) =>
      exists_ powdir fs' = true ∧
      (exists_ powdir fs = true → fs' = fs) ∧
      (exists_ powdir fs = false → lookup powdir fs' = Some (Dir []))
  | (fs', Raise e) => fs' = fs ∧ e = OSError ∧ exists_ powdir fs = false
  end.
Proof.
  unfold _ensure_powdir. destruct (exists_ powdir fs) eqn:Hex; simpl.
  - by rewrite Hex.
  - destruct (makedirs powdir fs) as [fs'|e] eqn:Hmk.
    + assert (Hl : lookup powdir fs' = Some (Dir [])).
      { apply (makedirs_creates _ fs); [|done].
        unfold exists_ in Hex. apply bool_decide_eq_false in Hex.
        destruct (lookup powdir fs); [|done]. exfalso; eauto. }
      split_and!; try done.
      unfold exists_. apply bool_decide_eq_true. rewrite Hl. eauto.
    + split_and!; try done. by apply makedirs_fails in Hmk.
Qed.

Lemma entry_filter_other (a b : string) (es : list (string * node)) :
  a ≠ b → entry a (filter (fun e => e.1 ≠ b) es) = entry a es.
Proof.
  intros Hab. induction es as [|[m c] es IH]; [done|].
  rewrite filter_cons. simpl. destruct (decide (m = b)) as [->|Hm].
  - rewrite decide_False by (by intros ?). rewrite IH.
    by rewrite decide_False by congruence.
  - rewrite decide_True by done. simpl. by rewrite IH.
Qed.

Lemma entry_fmap_other (a b : string) (f : node → node)
    (es : list (string * node)) :
  a ≠ b →
  entry a ((fun e => if decide (e.1 = b) then (e.1, f e.2) else e) <$> es)
  = entry a es.
Proof.
  intros Hab. induction es as [|[m c] es IH]; [done|]. simpl.
  destruct (decide (m = b)) as [->|Hm]; simpl.
  - rewrite !decide_False by congruence. apply IH.
  - destruct (decide (m = a)); [done|]. apply IH.
Qed.

(** [rmtree] leaves alone what is on another branch of the tree. *)
Lemma lookup_rmtree_other (common : path) (a b : string) (q p : path) :
  a ≠ b →
  ∀ n, lookup (common ++ a :: q) (rmtree (common ++ b :: p) n)
       = lookup (common ++ a :: q) n.
Proof.
  intros Hab. induction common as [|c common IH]; intros n; simpl app.
  - destruct n as [d|es]; [by destruct p|].
    destruct p as [|name' p'].
    + simpl. by rewrite entry_filter_other.
    + rewrite rmtree_below, !lookup_Dir. by rewrite entry_fmap_other.
  - destruct n as [d|es]; [by destruct common|].
    assert (Hr : rmtree (c :: common ++ b :: p) (Dir es) =
      Dir ((fun e => if decide (e.1 = c)
                     then (e.1, rmtree (common ++ b :: p) e.2) else e) <$> es)).
    { by destruct common. }
    rewrite Hr, !lookup_Dir, entry_fmap.
    destruct (entry c es) as [child|]; simpl; [apply IH|done].
Qed.

(** X8. When no regular file lies at its path, [_ensure_no_powdir]
    removes the working directory with all that is below it, and nothing
    else: every path that leaves the path of the working directory on
    another branch leads to what it led to before. *)
Theorem ensure_no_powdir_removes_only_powdir (common : path) (a b : string)
    (q p : path) (fs : node) :
  a ≠ b →
  no_file_at (common ++ b :: p) fs →
  let powdir := common ++ b :: p in
  let fs' := (_ensure_no_powdir powdir fs).1 in
  (∀ r, lookup (powdir ++ r) fs' = None) ∧
  lookup (common ++ a :: q) fs' = lookup (common ++ a :: q) fs ∧
  (exists_ powdir fs = true → shutil_rmtree powdir fs = Ok fs').
Proof.
  intros Hab Hno powdir fs'. unfold fs', _ensure_no_powdir.
  destruct (exists_ powdir fs) eqn:Hex.
  - rewrite (rmtree_of_directory powdir fs Hno Hex). cbn [fst]. split_and!.
    + intros r. apply lookup_app_None, lookup_rmtree. by destruct common.
    + by apply lookup_rmtree_other.
    + done.
  - cbn [fst]. split_and!; [|done|done]. intros r. apply lookup_app_None.
    unfold exists_ in Hex. apply bool_decide_eq_false in Hex.
    destruct (lookup powdir fs); [|done]. exfalso; eauto.
Qed.

Lemma ensure_no_powdir_removes_only_powdir_witness :
  let fs := Dir [("home", Dir [(".pow", Dir [("worm.db", File "db")]);
                               ("notes", File "mine")])] in
  "notes" ≠ ".pow" ∧
  no_file_at (["home"] ++ ".pow" :: []) fs ∧
  (∀ r, lookup ((["home"] ++ ".pow" :: []) ++ r)
          (_ensure_no_powdir (["home"] ++ ".pow" :: []) fs).1 = None) ∧
  lookup (["home"] ++ "notes" :: [])
    (_ensure_no_powdir (["home"] ++ ".pow" :: []) fs).1
  = lookup (["home"] ++ "notes" :: []) fs ∧
  (exists_ (["home"] ++ ".pow" :: []) fs = true →
   shutil_rmtree (["home"] ++ ".pow" :: []) fs
   = Ok (_ensure_no_powdir (["home"] ++ ".pow" :: []) fs).1).
Proof.
  intros fs.
  assert (H1 : "notes" ≠ ".pow") by discriminate.
  assert (H2 : no_file_at (["home"] ++ ".pow" :: []) fs)
    by (intros data; discriminate).
  exact (conj H1 (conj H2
    (ensure_no_powdir_removes_only_powdir ["home"] "notes" ".pow" [] [] fs H1 H2))).
Defined.

(** X9. [clone] into a working directory that exists already fails with
    the [OSError] of [makedirs] before anything is fetched, and its
    handler then deletes that directory with all it held, a removal
    that [shutil.rmtree] carries out without error. *)
Theorem clone_into_existing_powdir_deletes_it (powdir config_file : path)
    (_init_config_file _init_store load_all_graphs : io unit)
    (repository_provider : option (path → io unit)) (fs : node)
    (held : list (string * node)) :
  powdir ≠ [] →
  lookup powdir fs = Some (Dir held) →
  clone powdir config_file _init_config_file _init_store load_all_graphs
    repository_provider fs = (rmtree powdir fs, Raise OSError) ∧
  shutil_rmtree powdir fs = Ok (rmtree powdir fs) ∧
  ∀ q, lookup (powdir ++ q) (rmtree powdir fs) = None.
Proof.
  intros Hp Hdir.
  assert (Hex : exists_ powdir fs = true).
  { unfold exists_. apply bool_decide_eq_true. rewrite Hdir. eauto. }
  split_and!.
  - unfold clone, try_except_BaseException, io_bind, os_makedirs.
    rewrite Hex. unfold _ensure_no_powdir, io_raise. rewrite Hex.
    unfold shutil_rmtree. by rewrite Hdir.
  - unfold shutil_rmtree. by rewrite Hdir.
  - intros q. by apply lookup_app_None, lookup_rmtree.
Qed.

Lemma clone_into_existing_powdir_deletes_it_witness :
  let fs := Dir [(".pow", Dir [("worm.db", File "years of work")])] in
  [".pow"] ≠ [] ∧
  lookup [".pow"] fs = Some (Dir [("worm.db", File "years of work")]) ∧
  clone [".pow"] [".pow"; "pow.conf"] (io_ret ()) (io_ret ()) (io_ret ())
    (Some (fun _ => io_ret ())) fs = (rmtree [".pow"] fs, Raise OSError) ∧
  shutil_rmtree [".pow"] fs = Ok (rmtree [".pow"] fs) ∧
  ∀ q, lookup ([".pow"] ++ q) (rmtree [".pow"] fs) = None.
Proof.
  intros fs.
  assert (H1 : [".pow"] ≠ ([] : path)) by discriminate.
  assert (H2 : lookup [".pow"] fs = Some (Dir [("worm.db", File "years of work")]))
    by reflexivity.
  exact (conj H1 (conj H2
    (clone_into_existing_powdir_deletes_it [".pow"] [".pow"; "pow.conf"]
       (io_ret ()) (io_ret ()) (io_ret ()) (Some (fun _ => io_ret ())) fs _ H1 H2))).
Defined.

Lemma keeps_no_file_at_makedirs (p : path) :
  keeps_no_file_at p (fun fs =>
    match os_makedirs p fs with
    | Ok fs' => (fs', Ok ())
    | Raise e => (fs, Raise e)
    end).
Proof.
  intros fs fs' r Hrun Hno. unfold os_makedirs in Hrun.
  destruct (exists_ p fs) eqn:Hex; [by injection Hrun as <- _|].
  destruct (makedirs p fs) as [fs1|e] eqn:Hmk; injection Hrun as <- _; [|done].
  intros data. rewrite (makedirs_creates p fs fs1); [done| |done].
  by apply not_exists_lookup.
Qed.

(** X10. Whenever [clone] raises, with any exception at all (its
    handler catches [BaseException], so an interrupt too), nothing is
    left at the working directory or below it, and the removal, when
    there was something to remove, is one that [shutil.rmtree] carries
    out without error; this for a working directory at whose path no
    regular file lies, and collaborators that put none there. *)
Theorem clone_failure_leaves_no_powdir (powdir config_file : path)
    (_init_config_file _init_store load_all_graphs : io unit)
    (repository_provider : option (path → io unit))
    (fs fs' : node) (e : exn) :
  powdir ≠ [] →
  no_file_at powdir fs →
  keeps_no_file_at powdir _init_config_file →
  keeps_no_file_at powdir _init_store →
  keeps_no_file_at powdir load_all_graphs →
  (∀ provider_clone, repository_provider = Some provider_clone →
     keeps_no_file_at powdir (provider_clone powdir)) →
  clone powdir config_file _init_config_file _init_store load_all_graphs
    repository_provider fs = (fs', Raise e) →
  (∀ q, lookup (powdir ++ q) fs' = None) ∧
  ∃ fs1, (exists_ powdir fs1 = false ∧ fs' = fs1) ∨
         shutil_rmtree powdir fs1 = Ok fs'.
Proof.
  intros Hp Hno Hcfg Hstore Hload Hprov Hclone.
  unfold clone, try_except_BaseException in Hclone.
  destruct (io_bind _ _ fs) as [fs1 [[]|e1]] eqn:Hbody; [done|].
  assert (Hno1 : no_file_at powdir fs1).
  { revert Hbody Hno. apply keeps_no_file_at_bind; [apply keeps_no_file_at_makedirs|].
    intros _. apply keeps_no_file_at_bind.
    { destruct repository_provider as [provider_clone|];
        [by apply Hprov|apply keeps_no_file_at_raise]. }
    intros _. apply keeps_no_file_at_bind.
    { intros fs0 fs0' r Hrun. destruct (negb _); [by eapply Hcfg|].
      by injection Hrun as <- _. }
    intros _. by apply keeps_no_file_at_bind. }
  unfold io_bind at 1, _ensure_no_powdir, io_raise in Hclone.
  destruct (exists_ powdir fs1) eqn:Hex;
    [rewrite (rmtree_of_directory _ _ Hno1 Hex) in Hclone|]; simplify_eq.
  - split.
    + intros q. by apply lookup_app_None, lookup_rmtree.
    + exists fs1. right. by apply rmtree_of_directory.
  - split.
    + intros q. by apply lookup_app_None, not_exists_lookup.
    + exists fs'. by left.
Qed.

Lemma clone_failure_leaves_no_powdir_witness :
  let fs := Dir [("home", Dir [])] in
  let interrupted : io unit := fun fs => (fs, Raise KeyboardInterrupt) in
  ["home"; ".pow"] ≠ [] ∧
  no_file_at ["home"; ".pow"] fs ∧
  keeps_no_file_at ["home"; ".pow"] (io_ret ()) ∧
  keeps_no_file_at ["home"; ".pow"] interrupted ∧
  clone ["home"; ".pow"] ["home"; ".pow"; "pow.conf"] (io_ret ()) (io_ret ())
    interrupted (Some (fun _ => io_ret ())) fs
    = (Dir [("home", Dir [])], Raise KeyboardInterrupt) ∧
  (∀ q, lookup (["home"; ".pow"] ++ q) (Dir [("home", Dir [])]) = None) ∧
  ∃ fs1, (exists_ ["home"; ".pow"] fs1 = false ∧ Dir [("home", Dir [])] = fs1) ∨
         shutil_rmtree ["home"; ".pow"] fs1 = Ok (Dir [("home", Dir [])]).
Proof.
  intros fs interrupted.
  assert (H1 : ["home"; ".pow"] ≠ ([] : path)) by discriminate.
  assert (H2 : no_file_at ["home"; ".pow"] fs) by (intros data; discriminate).
  assert (H3 : keeps_no_file_at ["home"; ".pow"] (io_ret ()))
    by apply keeps_no_file_at_ret.
  assert (H4 : keeps_no_file_at ["home"; ".pow"] interrupted)
    by apply (keeps_no_file_at_raise _ KeyboardInterrupt).
  assert (H5 : ∀ provider_clone,
             Some (fun _ : path => io_ret ()) = Some provider_clone →
             keeps_no_file_at ["home"; ".pow"] (provider_clone ["home"; ".pow"]))
    by (intros ? [= <-]; apply keeps_no_file_at_ret).
  assert (H6 : clone ["home"; ".pow"] ["home"; ".pow"; "pow.conf"] (io_ret ())
                 (io_ret ()) interrupted (Some (fun _ => io_ret ())) fs
               = (Dir [("home", Dir [])], Raise KeyboardInterrupt)) by reflexivity.
  exact (conj H1 (conj H2 (conj H3 (conj H4 (conj H6
    (clone_failure_leaves_no_powdir _ _ _ _ _ _ _ _ _ H1 H2 H3 H3 H4 H5 H6)))))).
Defined.

(** What was written to a file is what is at its path. *)
Lemma lookup_write_file (p : path) (data : string) :
  ∀ n n', write_file p data n = Ok n' → lookup p n' = Some (File data).
Proof.
  induction p as [|name p IH]; intros n n' Hw.
  - destruct n; simpl in Hw; by simplify_eq.
  - destruct n as [d|es]; [done|]. simpl in Hw.
    destruct (entry name es) as [c|] eqn:He.
    + destruct (write_file p data c) as [c'|e] eqn:Hc; [|done]. simpl in Hw.
      injection Hw as <-. rewrite lookup_Dir, entry_replace, He. simpl.
      by apply (IH c).
    + destruct p; [|done]. injection Hw as <-.
      rewrite lookup_Dir. simpl. by rewrite decide_True.
Qed.

(** X11. Setting the context and reading it back.  When [context(c)]
    returns, it has handed nothing to [message], and [context()] then
    hands over what reading the file in text mode gives for [c] and the
    line end that [print] added, changing nothing: [c] followed by a
    line feed when [c] holds no carriage return.  When [context(c)]
    raises, either the file could not be opened and nothing has
    changed, or the text could not be encoded and the file is left
    empty. *)
Theorem context_set_then_get (encodable : string → bool) (basedir : path)
    (c : string) (fs fs' : node) (r : result (option string)) :
  context encodable basedir (Some c) fs = (fs', r) →
  match r with
  | Ok handed =>
      handed = None ∧
      context encodable basedir None fs'
        = (fs', Ok (Some (Str.universal_newlines (c +:+ String "010" "")))) ∧
      (Str.none_of (Ascii.eqb "013") c = true →
       context encodable basedir None fs'
         = (fs', Ok (Some (c +:+ String "010" ""))))
  | Raise e =>
      fs' = fs ∨
      encodable c = false ∧ e = ValueError ∧
      lookup (basedir ++ ["context"]) fs' = Some (File "")
  end.
Proof.
  unfold context.
  destruct (write_file _ _ fs) as [fs1|e] eqn:Hw; intros [= <- <-];
    [|by left].
  apply lookup_write_file in Hw.
  destruct (encodable c); [|right; by split_and!].
  assert (Hget : (if negb (exists_ (basedir ++ ["context"]) fs1)
                  then (fs1, Ok (Some "No context"))
                  else match read_file (basedir ++ ["context"]) fs1 with
                       | Ok data => (fs1, Ok (Some (Str.universal_newlines data)))
                       | Raise e => (fs1, Raise e)
                       end)
                 = (fs1, Ok (Some (Str.universal_newlines (c +:+ String "010" ""))))).
  { unfold exists_, read_file. rewrite Hw.
    by rewrite bool_decide_eq_true_2 by eauto. }
  split_and!; [done|exact Hget|].
  intros Hc. rewrite Hget. do 3 f_equal. apply universal_newlines_id.
  by rewrite none_of_app, Hc.
Qed.

Lemma context_set_then_get_witness :
  let fs := Dir [("home", Dir [("context", File "http://old
")])] in
  let fs' := Dir [("home", Dir [("context", File "http://new
")])] in
  context (fun _ => true) ["home"] (Some "http://new") fs = (fs', Ok None) ∧
  None = (None : option string) ∧
  context (fun _ => true) ["home"] None fs'
    = (fs', Ok (Some (Str.universal_newlines ("http://new" +:+ String "010" "")))) ∧
  (Str.none_of (Ascii.eqb "013") "http://new" = true →
   context (fun _ => true) ["home"] None fs'
     = (fs', Ok (Some ("http://new" +:+ String "010" "")))).
Proof.
  intros fs fs'.
  assert (H1 : context (fun _ => true) ["home"] (Some "http://new") fs
               = (fs', Ok None)) by reflexivity.
  exact (conj H1
    (context_set_then_get (fun _ => true) ["home"] "http://new" fs fs' _ H1)).
Defined.

End workdir_more.

(** ** What a serialization pass leaves on disk *)

Section serialize_more.
Import Str POW.
Variable hexdigest : string → string.
#[local] Existing Instance nt_suffix_inj.

Lemma file_names_NoDup (xs : list (string * gset triple)) :
  NoDup (hexdigest <$> xs.*1) →
  NoDup ((fun x => hexdigest x.1 +:+ ".nt") <$> xs).
Proof.
  intros Hnd.
  replace ((fun x : string * gset triple => hexdigest x.1 +:+ ".nt") <$> xs)
    with ((fun h => h +:+ ".nt") <$> (hexdigest <$> xs.*1))
    by (by rewrite <- !list_fmap_compose).
  by apply (NoDup_fmap_2 _).
Qed.

#[local] Instance pair_le_total : Total pair_le.
Proof.
  intros a b. unfold pair_le. destruct (decide (a.1 = b.1)) as [Heq|Hne].
  - destruct (total String.le a.2 b.2); [left; right|right; right]; done.
  - destruct (total String.le a.1 b.1); [left; left|right; left]; split;
      done || congruence.
Qed.

#[local] Instance triple_le_total : Total triple_le.
Proof.
  intros a b. unfold triple_le. destruct (decide (a.1 = b.1)) as [Heq|Hne].
  - destruct (total String.le a.2 b.2); [left; right|right; right]; done.
  - destruct (total pair_le a.1 b.1); [left; left|right; left]; split;
      done || congruence.
Qed.

(** A file found after the loop was there before, or was written for
    one of the contexts. *)
Lemma written_files_inv (xs : list (string * gset triple))
    (files : gmap string (list nt_line)) (f : string) (lines : list nt_line) :
  foldl (fun fs x => <[hexdigest x.1 +:+ ".nt" := serialize_nt x.2]> fs) files xs
    !! f = Some lines →
  files !! f = Some lines ∨
  ∃ x, x ∈ xs ∧ f = hexdigest x.1 +:+ ".nt" ∧ lines = serialize_nt x.2.
Proof.
  revert files. induction xs as [|x xs IH]; intros files Hl; [by left|].
  simpl in Hl. apply IH in Hl as [Hl|(y & Hy & -> & ->)].
  - apply lookup_insert_Some in Hl as [[<- <-]|[_ Hl]]; [|by left].
    right. exists x. split; [apply list_elem_of_here|done].
  - right. exists y. split; [by apply list_elem_of_further|done].
Qed.

(** X12. After a serialization pass over contexts with pairwise
    distinct digests, the index lists the contexts sorted by (file name,
    identifier), one entry for each context of the store and no other,
    and every entry names the file [digest.nt] of its context, which
    exists. *)
Theorem serialized_index_invariant (before : option graphs_dir) (g : Store) :
  NoDup (hexdigest <$> (contexts g).*1) →
  ∃ dir E, _serialize_graphs hexdigest before g = Ok dir ∧
    index dir = Some (foldr (fun l text => index_line l +:+ text) "" E) ∧
    Sorted pair_le E ∧
    NoDup E.*2 ∧
    (∀ c, c ∈ E.*2 ↔ is_Some (g !! c)) ∧
    (∀ f c, (f, c) ∈ E →
       f = hexdigest c +:+ ".nt" ∧ is_Some (nt_files dir !! f)).
Proof.
  intros Hnd. rewrite serialize_graphs_distinct by done.
  set (entry_of := fun x : string * gset triple => (hexdigest x.1 +:+ ".nt", x.1)).
  set (E := merge_sort pair_le (entry_of <$> contexts g)).
  assert (HE : E ≡ₚ entry_of <$> contexts g) by apply merge_sort_Permutation.
  assert (Hsnd : E.*2 ≡ₚ (contexts g).*1).
  { rewrite HE, <- list_fmap_compose. done. }
  pose proof (file_names_NoDup _ Hnd) as Hfiles.
  eexists _, E. split_and!; try done.
  - apply (Sorted_merge_sort _).
  - rewrite Hsnd. apply NoDup_fst_map_to_list.
  - intros c. rewrite Hsnd. unfold contexts.
    rewrite list_elem_of_fmap. split.
    + intros ([c' T] & -> & Hin). apply elem_of_map_to_list in Hin. eauto.
    + intros [T HT]. exists (c, T). split; [done|]. by apply elem_of_map_to_list.
  - intros f c Hin. rewrite HE in Hin.
    apply list_elem_of_fmap in Hin as (x & [= -> ->] & Hx). split; [done|].
    simpl. rewrite written_files_lookup by done. eauto.
Qed.

(** X13. After a serialization pass over contexts with pairwise
    distinct digests, the files of the [graphs] directory are those of
    the contexts and no other: each context has its file [digest.nt],
    and every file is the file of one context.  A file holds the triples
    of its context, each once, in sorted order. *)
Theorem serialized_files_invariant (before : option graphs_dir) (g : Store) :
  NoDup (hexdigest <$> (contexts g).*1) →
  ∃ dir, _serialize_graphs hexdigest before g = Ok dir ∧
    (∀ c T, g !! c = Some T →
       nt_files dir !! (hexdigest c +:+ ".nt") = Some (serialize_nt T)) ∧
    (∀ f lines, nt_files dir !! f = Some lines →
       ∃ c T, g !! c = Some T ∧ f = hexdigest c +:+ ".nt" ∧
              lines = serialize_nt T) ∧
    (∀ T : gset triple, ∃ L,
       serialize_nt T = NTriple <$> L ∧
       Sorted triple_le L ∧ NoDup L ∧ ∀ tr, tr ∈ L ↔ tr ∈ T).
Proof.
  intros Hnd. rewrite serialize_graphs_distinct by done.
  pose proof (file_names_NoDup _ Hnd) as Hfiles.
  eexists. split; [done|]. simpl. split_and!.
  - intros c T Hc.
    apply (written_files_lookup hexdigest (contexts g) ∅ (c, T)); [done|].
    by apply elem_of_map_to_list.
  - intros f lines Hl. apply written_files_inv in Hl as [Hl|([c T] & Hx & -> & ->)].
    + by rewrite lookup_empty in Hl.
    + exists c, T. split; [|done]. by apply elem_of_map_to_list in Hx.
  - intros T. exists (merge_sort triple_le (elements T)). split_and!.
    + done.
    + apply (Sorted_merge_sort _).
    + rewrite merge_sort_Permutation. apply NoDup_elements.
    + intros tr. rewrite merge_sort_Permutation. apply elem_of_elements.
Qed.

End serialize_more.

Lemma serialized_index_invariant_witness :
  let g : Store := {[ "http://x/a" := {[ ("a","p","b") ]};
                      "http://x/b" := {[ ("b","p","c") ]} ]} in
  NoDup (POW.example_hexdigest <$> (POW.contexts g).*1) ∧
  ∃ dir E, POW._serialize_graphs POW.example_hexdigest None g = Ok dir ∧
    POW.index dir = Some (foldr (fun l text => POW.index_line l +:+ text) "" E) ∧
    Sorted POW.pair_le E ∧
    NoDup E.*2 ∧
    (∀ c, c ∈ E.*2 ↔ is_Some (g !! c)) ∧
    (∀ f c, (f, c) ∈ E →
       f = POW.example_hexdigest c +:+ ".nt" ∧ is_Some (POW.nt_files dir !! f)).
Proof.
  intros g.
  assert (H1 : NoDup (POW.example_hexdigest <$> (POW.contexts g).*1))
    by (apply (bool_decide_unpack _); vm_compute; exact I).
  exact (conj H1 (serialized_index_invariant POW.example_hexdigest None g H1)).
Defined.

Lemma serialized_files_invariant_witness :
  let g : Store := {[ "http://x/a" := {[ ("a","p","b") ]};
                      "http://x/b" := {[ ("b","p","c") ]} ]} in
  NoDup (POW.example_hexdigest <$> (POW.contexts g).*1) ∧
  ∃ dir, POW._serialize_graphs POW.example_hexdigest None g = Ok dir ∧
    (∀ c T, g !! c = Some T →
       POW.nt_files dir !! (POW.example_hexdigest c +:+ ".nt")
       = Some (POW.serialize_nt T)) ∧
    (∀ f lines, POW.nt_files dir !! f = Some lines →
       ∃ c T, g !! c = Some T ∧ f = POW.example_hexdigest c +:+ ".nt" ∧
              lines = POW.serialize_nt T) ∧
    (∀ T : gset triple, ∃ L,
       POW.serialize_nt T = POW.NTriple <$> L ∧
       Sorted POW.triple_le L ∧ NoDup L ∧ ∀ tr, tr ∈ L ↔ tr ∈ T).
Proof.
  intros g.
  assert (H1 : NoDup (POW.example_hexdigest <$> (POW.contexts g).*1))
    by (apply (bool_decide_unpack _); vm_compute; exact I).
  exact (conj H1 (serialized_files_invariant POW.example_hexdigest None g H1)).
Defined.

(** ** The bulk load, beyond the claims *)

Section load_more.
Import Str POW.

(** A file that the parser reads to its end holds statements only, and
    each was added. *)
Lemma parse_nt_ok (f : list nt_line) :
  ∀ (w w' : BatchAddGraph.t) (st st' : Store),
  parse_nt f w st = (w', st', None) →
  ∃ L, f = NTriple <$> L ∧ BatchAddGraph.add_all w st L = Ok (w', st').
Proof.
  induction f as [|[tr|text] f IH]; intros w w' st st' Hp; simpl in Hp.
  - exists []. by simplify_eq.
  - destruct (BatchAddGraph.add w tr st) as [[w1 st1]|e] eqn:Hadd; [|done].
    apply IH in Hp as (L & -> & Hrun). exists (tr :: L). split; [done|].
    simpl. by rewrite Hadd.
  - done.
Qed.

(** A round of the loop that succeeds has read a file of statements and
    inserted them into the context that the line names. *)
Lemma load_line_ok (os_open : string → option (list nt_line))
    (dir : graphs_dir) (l : string) (st st' : Store) (n n' : Z) :
  load_line os_open dir l st n = (st', Ok n') →
  ∃ f c L, parse_index_line l = Ok (f, c) ∧
    open_graph_file os_open dir f = Some (NTriple <$> L) ∧
    st' = foldl store_add st (BatchAddGraph.quads c L) ∧
    n' = n + Z.of_nat (length L).
Proof.
  unfold load_line. destruct (parse_index_line l) as [[f c]|e]; [|done].
  destruct (open_graph_file os_open dir f) as [lines|] eqn:Hf; [|done].
  destruct (parse_nt lines _ st) as [[g' st1] [e|]] eqn:Hp; [done|].
  intros [= <- <-]. apply parse_nt_ok in Hp as (L & -> & Hrun).
  destruct (with_batch_store c 4000 L st) as (w & s & Hrun' & Hexit & Hc); [lia|].
  rewrite Hrun in Hrun'. injection Hrun' as <- <-.
  exists f, c, L. split_and!; [done|done|exact Hexit|by rewrite Hc].
Qed.

Lemma listed_statements_eq (os_open : string → option (list nt_line))
    (dir : graphs_dir) (l f c : string) (L : list triple) :
  parse_index_line l = Ok (f, c) →
  open_graph_file os_open dir f = Some (NTriple <$> L) →
  listed_statements os_open dir l = Z.of_nat (length L).
Proof.
  intros Hp Hf. unfold listed_statements. by rewrite Hp, Hf, length_fmap.
Qed.

Lemma load_lines_ok (os_open : string → option (list nt_line))
    (dir : graphs_dir) (ls : list string) :
  ∀ (st st' : Store) (n n' : Z),
  load_lines os_open dir ls st n = (st', Ok n') →
  n' = n + foldr (fun l acc => listed_statements os_open dir l + acc) 0 ls ∧
  (∀ c, ctx_triples st c ⊆ ctx_triples st' c) ∧
  (∀ c, (∀ l f, l ∈ ls → parse_index_line l ≠ Ok (f, c)) → st' !! c = st !! c).
Proof.
  induction ls as [|l ls IH]; intros st st' n n' Hl; simpl in Hl.
  - simplify_eq. simpl. split_and!; [lia|done|done].
  - destruct (load_line os_open dir l st n) as [st1 [n1|e]] eqn:Hline; [|done].
    apply load_line_ok in Hline as (f & c0 & L & Hp & Hf & -> & ->).
    apply IH in Hl as (-> & Hmono & Hother).
    destruct (store_add_quads c0 L st) as (Ht & Ho & _). simpl.
    rewrite (listed_statements_eq os_open dir l f c0 L) by done. split_and!.
    + lia.
    + intros c. etrans; [|apply Hmono].
      destruct (decide (c = c0)) as [->|Hc].
      * rewrite Ht. set_solver.
      * unfold ctx_triples. by rewrite Ho.
    + intros c Hc. rewrite Hother.
      * apply Ho. intros ->. by apply (Hc l f); [apply list_elem_of_here|].
      * intros l' f' Hl'. apply Hc. by apply list_elem_of_further.
Qed.

(** X14. A bulk load that returns reports the number of statements of
    the files that the lines of the index open, line by line, as the
    index is read in text mode and each name is opened from the
    [graphs] directory; it has removed no triple from the store it was
    given; and a context that no line of the index names is as it
    was. *)
Theorem load_success_counts_and_keeps
    (os_open : string → option (list nt_line)) (dir : graphs_dir)
    (dest st' : Store) (n : Z) :
  _load_all_graphs os_open dir dest = (st', Ok n) →
  n = foldr (fun l acc => listed_statements os_open dir l + acc) 0
        (from_option readlines [] (index dir)) ∧
  (∀ c, ctx_triples dest c ⊆ ctx_triples st' c) ∧
  (∀ c, (∀ l f, l ∈ from_option readlines [] (index dir) →
                parse_index_line l ≠ Ok (f, c)) →
        st' !! c = dest !! c).
Proof.
  unfold _load_all_graphs, _load_all_graphs_in, transaction_manager.
  destruct (index dir) as [idx|]; simpl.
  - destruct (load_lines os_open dir (readlines idx) dest 0)
      as [st1 [n1|e]] eqn:Hl; [|done].
    intros [= <- <-]. apply load_lines_ok in Hl as (-> & Hmono & Hother).
    split_and!; [lia|done|done].
  - intros [= <- <-]. done.
Qed.

Lemma load_success_counts_and_keeps_witness :
  let sa : triple := ("http://x/s", "http://x/p", "http://x/a") in
  let sb : triple := ("http://x/s", "http://x/p", "http://x/b") in
  let sd : triple := ("http://x/s", "http://x/p", "http://x/d") in
  let idx := "a.nt http://x/a" +:+ String "013" (String "010"
               ("../graphs/a.nt http://x/b" +:+ String "013" "")) in
  let dir := {| nt_files := {[ "a.nt" := [NTriple sa; NTriple sb] ]};
                index := Some idx |} in
  let os_open := fun f : string =>
    if String.eqb f "../graphs/a.nt" then Some [NTriple sa; NTriple sb]
    else None in
  let dest : Store := {[ "http://x/c" := {[ sd ]} ]} in
  let st' : Store := {[ "http://x/a" := {[ sa; sb ]};
                        "http://x/b" := {[ sa; sb ]};
                        "http://x/c" := {[ sd ]} ]} in
  _load_all_graphs os_open dir dest = (st', Ok 4) ∧
  4 = foldr (fun l acc => listed_statements os_open dir l + acc) 0
        (from_option readlines [] (index dir)) ∧
  (∀ c, ctx_triples dest c ⊆ ctx_triples st' c) ∧
  (∀ c, (∀ l f, l ∈ from_option readlines [] (index dir) →
                parse_index_line l ≠ Ok (f, c)) →
        st' !! c = dest !! c).
Proof.
  intros sa sb sd idx dir os_open dest st'.
  assert (H1 : _load_all_graphs os_open dir dest = (st', Ok 4))
    by (apply (bool_decide_unpack _); vm_compute; exact I).
  exact (conj H1 (load_success_counts_and_keeps os_open dir dest st' 4 H1)).
Defined.

End load_more.

(** ** Loading into a store that is not empty *)

Section merge_facts.
Import Str POW.
Variable hexdigest : string → string.

(** The union of two stores, context by context. *)
#[local] Abbreviation merge_stores :=
  (union_with (fun a b : gset triple => Some (a ∪ b))).

(** Loading the file of a context adds its triples to those the store
    has for that context. *)
Lemma load_context_merge (c : string) (T : gset triple) (st : Store) :
  T ≠ ∅ →
  foldl store_add st
    (BatchAddGraph.quads c (merge_sort triple_le (elements T)))
  = <[c := T ∪ ctx_triples st c]> st.
Proof.
  intros HT.
  destruct (store_add_quads c (merge_sort triple_le (elements T)) st)
    as (Ht & Ho & Hs).
  assert (Hset : list_to_set (merge_sort triple_le (elements T)) = T).
  { rewrite merge_sort_Permutation. apply list_to_set_elements_L. }
  assert (Hne : merge_sort triple_le (elements T) ≠ []).
  { intros Hnil. apply HT. rewrite <- Hset, Hnil. done. }
  apply map_eq. intros k. destruct (decide (k = c)) as [->|Hk].
  - rewrite lookup_insert_eq. destruct (Hs Hne) as [X HX].
    rewrite Hset in Ht. unfold ctx_triples at 1 in Ht. rewrite HX in Ht.
    simpl in Ht. rewrite HX, Ht. f_equal. set_solver.
  - rewrite lookup_insert_ne by done. by apply Ho.
Qed.

Lemma load_lines_merge (os_open : string → option (list nt_line))
    (dir : graphs_dir) (g : Store) (E : list (string * string)) :
  NoDup E.*2 →
  Forall (fun e =>
    e.1 ≠ "" ∧ e.2 ≠ "" ∧
    none_of isspace e.1 = true ∧ none_of isspace e.2 = true ∧
    ∃ T, g !! e.2 = Some T ∧ T ≠ ∅ ∧
         nt_files dir !! e.1 = Some (serialize_nt T)) E →
  ∀ (st : Store) (n : Z),
  ∃ n', load_lines os_open dir (index_line <$> E) st n =
          (merge_stores
             (list_to_map ((fun e => (e.2, default ∅ (g !! e.2))) <$> E)) st,
           Ok n').
Proof.
  induction E as [|[f c] E IH]; intros Hnd HE st n.
  - simpl. exists n. f_equal. apply map_eq. intros k.
    rewrite lookup_union_with, lookup_empty. by destruct (st !! k).
  - apply Forall_cons in HE as [(Hf & Hc & Hfs & Hcs & T & Hg & HT & Hfile) HE].
    simpl in *. apply NoDup_cons in Hnd as [Hc_notin Hnd].
    unfold load_line, open_graph_file.
    rewrite parse_index_line_written by done.
    rewrite Hfile. unfold serialize_nt.
    destruct (with_batch_store c 4000 (merge_sort triple_le (elements T)) st)
      as (w & s & Hrun & Hexit & _); [lia|].
    rewrite (parse_nt_triples _ _ _ _ _ Hrun), Hexit.
    rewrite load_context_merge by done.
    destruct (IH Hnd HE (<[c := T ∪ ctx_triples st c]> st)
                (n + BatchAddGraph.count w)) as [n' Hn'].
    exists n'. etrans; [exact Hn'|]. f_equal. rewrite Hg. simpl.
    assert (Hm : (list_to_map ((fun e => (e.2, default ∅ (g !! e.2))) <$> E)
                   : Store) !! c = None).
    { apply not_elem_of_list_to_map_1. rewrite <- list_fmap_compose. done. }
    apply map_eq. intros k. rewrite !lookup_union_with.
    destruct (decide (k = c)) as [->|Hk].
    + rewrite Hm, !lookup_insert_eq. unfold ctx_triples.
      destruct (st !! c); simpl; f_equal; set_solver.
    + by rewrite !lookup_insert_ne.
Qed.

(** X15. Under the conditions of the round trip, bulk-loading what was
    serialized from [g] into any store [dest] succeeds and merges:
    every context holds the union of what [g] and [dest] hold for it.
    So loading into the serialized store itself changes nothing.  The
    names in the index are those of the files written, so nothing else
    is opened. *)
Theorem serialize_load_merges (os_open : string → option (list nt_line))
    (before : option graphs_dir) (g dest : Store) :
  NoDup (hexdigest <$> (contexts g).*1) →
  Forall (fun x => x.1 ≠ "" ∧ none_of isspace x.1 = true ∧
                   none_of isspace (hexdigest x.1) = true ∧ x.2 ≠ ∅)
    (contexts g) →
  ∃ dir n m, _serialize_graphs hexdigest before g = Ok dir ∧
    _load_all_graphs os_open dir dest = (merge_stores g dest, Ok n) ∧
    _load_all_graphs os_open dir g = (g, Ok m).
Proof.
  intros Hnd Hall. rewrite serialize_graphs_distinct by done.
  set (entry_of := fun x : string * gset triple => (hexdigest x.1 +:+ ".nt", x.1)).
  set (E := merge_sort pair_le (entry_of <$> contexts g)).
  set (dir := {| nt_files := _; index := _ |}).
  assert (HE : E ≡ₚ entry_of <$> contexts g) by apply merge_sort_Permutation.
  assert (Hsnd : E.*2 ≡ₚ (contexts g).*1).
  { rewrite HE, <- list_fmap_compose. done. }
  pose proof (file_names_NoDup hexdigest _ Hnd) as Hfiles.
  rewrite Forall_forall in Hall.
  assert (Hentries : ∀ e, e ∈ E → ∃ x, x ∈ contexts g ∧ e = entry_of x).
  { intros e He. rewrite HE in He. apply list_elem_of_fmap in He as (x & -> & Hx).
    eauto. }
  assert (Hmap : (list_to_map ((fun e => (e.2, default ∅ (g !! e.2))) <$> E)
                   : Store) = g).
  { etrans; [|apply (list_to_map_to_list g)].
    apply list_to_map_proper.
    { rewrite <- list_fmap_compose. simpl.
      change (NoDup E.*2). rewrite Hsnd. apply NoDup_fst_map_to_list. }
    rewrite HE, <- list_fmap_compose.
    apply Permutation_refl'. etrans; [|apply list_fmap_id].
    apply list_fmap_ext. intros i [c T] Hi. simpl.
    apply list_elem_of_lookup_2, elem_of_map_to_list in Hi. by rewrite Hi. }
  assert (Hload : ∀ st, ∃ n,
    _load_all_graphs os_open dir st = (merge_stores g st, Ok n)).
  { intros st.
    destruct (load_lines_merge os_open dir g E) with (st := st) (n := 0)
      as [n Hload].
    { rewrite Hsnd. apply NoDup_fst_map_to_list. }
    { apply Forall_forall. intros e (x & Hx & ->)%Hentries.
      destruct (Hall x Hx) as (Hc & Hcs & Hhs & HT). simpl.
      split_and!; try done.
      - by destruct (hexdigest x.1).
      - by rewrite none_of_app, Hhs.
      - exists x.2. split_and!; try done.
        + apply elem_of_map_to_list. by destruct x.
        + by apply written_files_lookup. }
    exists n. unfold _load_all_graphs, _load_all_graphs_in, transaction_manager.
    cbn [index dir].
    rewrite readlines_index.
    2:{ apply Forall_forall. intros e (x & Hx & ->)%Hentries.
        destruct (Hall x Hx) as (Hc & Hcs & Hhs & HT). simpl. split.
        - rewrite none_of_app. rewrite (none_of_newline _ Hhs). done.
        - by apply none_of_newline. }
    fold E. rewrite Hload. by rewrite Hmap. }
  destruct (Hload dest) as [n Hn]. destruct (Hload g) as [m Hm].
  exists dir, n, m. split_and!; try done.
  rewrite Hm. f_equal. apply map_eq. intros k. rewrite lookup_union_with.
  destruct (g !! k); simpl; [|done]. f_equal. set_solver.
Qed.

End merge_facts.

Lemma serialize_load_merges_witness :
  let g : Store := {[ "http://x/a" := {[ ("a","p","b") ]} ]} in
  let dest : Store := {[ "http://x/a" := {[ ("b","p","c") ]};
                         "http://x/c" := {[ ("c","p","d") ]} ]} in
  NoDup (POW.example_hexdigest <$> (POW.contexts g).*1) ∧
  Forall (fun x => x.1 ≠ "" ∧ Str.none_of Str.isspace x.1 = true ∧
                   Str.none_of Str.isspace (POW.example_hexdigest x.1) = true ∧
                   x.2 ≠ ∅)
    (POW.contexts g) ∧
  ∃ dir n m, POW._serialize_graphs POW.example_hexdigest None g = Ok dir ∧
    POW._load_all_graphs POW.nothing_else dir dest
      = (union_with (fun a b : gset triple => Some (a ∪ b)) g dest, Ok n) ∧
    POW._load_all_graphs POW.nothing_else dir g = (g, Ok m).
Proof.
  intros g dest.
  assert (H1 : NoDup (POW.example_hexdigest <$> (POW.contexts g).*1))
    by (apply (bool_decide_unpack _); vm_compute; exact I).
  assert (H2 : Forall (fun x => x.1 ≠ "" ∧ Str.none_of Str.isspace x.1 = true ∧
                   Str.none_of Str.isspace (POW.example_hexdigest x.1) = true ∧
                   x.2 ≠ ∅) (POW.contexts g))
    by (apply (bool_decide_unpack _); vm_compute; exact I).
  exact (conj H1 (conj H2
    (serialize_load_merges POW.example_hexdigest POW.nothing_else None g dest
       H1 H2))).
Defined.

(** ** [POWSource.show]: the identifier looked up *)

Section show_more.
Import Str POWSource.
#[local] Arguments Ascii.eqb : simpl never.
Variable is_ncname : string → bool.

(** X16. [show] expands [pref:local] to the namespace of the first
    binding of [pref] followed by [local], when [local] is a name
    without colon.  What follows a second colon is dropped:
    [pref:local:rest] is looked up as [pref:local] is.  An identifier
    without colon is looked up as it stands. *)
Theorem show_uri_expands_prefix (namespaces : list (string * string))
    (pref local ns rest plain : string) :
  none_of (Ascii.eqb ":") pref = true →
  none_of (Ascii.eqb ":") local = true →
  is_ncname local = true →
  first_namespace pref namespaces = Some ns →
  none_of (Ascii.eqb ":") plain = true →
  show_uri is_ncname namespaces (pref +:+ String ":" local) = ns +:+ local ∧
  show_uri is_ncname namespaces (pref +:+ String ":" (local +:+ String ":" rest))
    = ns +:+ local ∧
  show_uri is_ncname namespaces plain = plain.
Proof.
  intros Hp Hl Hnc Hns Hplain. unfold show_uri. split_and!.
  - rewrite split_app, split_none by done. by rewrite Hnc, Hns.
  - rewrite !split_app by done.
    pose proof (split_nonempty ":" rest).
    destruct (split ":" rest); [done|]. by rewrite Hnc, Hns.
  - by rewrite split_none.
Qed.

End show_more.

Lemma show_uri_expands_prefix_witness :
  let is_ncname := fun s : string => negb (String.eqb s "") in
  let namespaces := [("rdf", "http://www.w3.org/1999/02/22-rdf-syntax-ns#");
                     ("ow", "http://openworm.org/entities/");
                     ("ow", "http://example.org/shadowed/")] in
  Str.none_of (Ascii.eqb ":") "ow" = true ∧
  Str.none_of (Ascii.eqb ":") "Neuron" = true ∧
  is_ncname "Neuron" = true ∧
  POWSource.first_namespace "ow" namespaces = Some "http://openworm.org/entities/" ∧
  Str.none_of (Ascii.eqb ":") "Neuron" = true ∧
  POWSource.show_uri is_ncname namespaces ("ow" +:+ String ":" "Neuron")
    = "http://openworm.org/entities/" +:+ "Neuron" ∧
  POWSource.show_uri is_ncname namespaces
    ("ow" +:+ String ":" ("Neuron" +:+ String ":" "AVAL"))
    = "http://openworm.org/entities/" +:+ "Neuron" ∧
  POWSource.show_uri is_ncname namespaces "Neuron" = "Neuron".
Proof.
  intros is_ncname namespaces.
  assert (H1 : Str.none_of (Ascii.eqb ":") "ow" = true) by reflexivity.
  assert (H2 : Str.none_of (Ascii.eqb ":") "Neuron" = true) by reflexivity.
  assert (H3 : is_ncname "Neuron" = true) by reflexivity.
  assert (H4 : POWSource.first_namespace "ow" namespaces
               = Some "http://openworm.org/entities/") by reflexivity.
  exact (conj H1 (conj H2 (conj H3 (conj H4 (conj H2
    (show_uri_expands_prefix is_ncname namespaces "ow" "Neuron" _ "AVAL" "Neuron"
       H1 H2 H3 H4 H2)))))).
Defined.

(** ** [translate] *)

Section translate_more.
Import POW.

Variable translator_class : Type.
Variable load_translators : string → result (list translator_class).
Variable instantiate : translator_class → result unit.
Variable make_context : string → result unit.
Variable TemporaryDirectory : result string.
Variable getcwd : result string.
Variable in_directory : string → result unit.

(** X17. [translate] never returns: whatever its arguments and its
    collaborators do, it raises.  With a positional data source it
    raises when it looks up [_lookup_source], which [POW] does not
    have; with a named data source it raises on unpacking the name, or
    on the same lookup when the name has two characters; without data
    sources it raises on [d.name], at the latest. *)
Theorem translate_never_returns (translator imports_context_ident : string)
    (data_sources : list string) (named_data_sources : list (string * string)) :
  ∃ e, translate translator_class load_translators instantiate make_context
         TemporaryDirectory getcwd in_directory
         translator imports_context_ident data_sources named_data_sources
       = Raise e.
Proof.
  unfold translate, _lookup_translator.
  destruct (make_context _) as [[]|e]; simpl; [|eauto].
  destruct (load_translators _) as [xs|e]; simpl; [|eauto].
  destruct (head xs) as [c|]; simpl; [|eauto].
  destruct (instantiate c) as [[]|e]; simpl; [|eauto].
  destruct data_sources as [|src srcs]; simpl; [|eauto].
  destruct named_data_sources as [|[key v] named]; simpl.
  - destruct TemporaryDirectory as [d|e]; simpl; [|eauto].
    destruct getcwd as [wd|e]; simpl; eauto.
  - destruct (unpack_pair key) as [[k src]|e]; simpl; eauto.
Qed.

(** X18. Where the collaborators before them succeed, the errors of
    [translate] are these: [AttributeError] as soon as there is a
    positional data source; otherwise, for a first named data source,
    [ValueError] unless its name has exactly two characters, and
    [AttributeError] if it has. *)
Theorem translate_data_source_errors (translator imports_context_ident : string)
    (c : translator_class) (cs : list translator_class)
    (data_sources : list string) (named_data_sources : list (string * string)) :
  make_context imports_context_ident = Ok () →
  load_translators translator = Ok (c :: cs) →
  instantiate c = Ok () →
  data_sources ≠ [] ∨ named_data_sources ≠ [] →
  translate translator_class load_translators instantiate make_context
    TemporaryDirectory getcwd in_directory
    translator imports_context_ident data_sources named_data_sources
  = Raise (match data_sources, named_data_sources with
           | [], (key, _) :: _ =>
               if Nat.eqb (String.length key) 2 then AttributeError
               else ValueError
           | _, _ => AttributeError
           end).
Proof.
  intros Hctx Hload Hinst Hsrc. unfold translate, _lookup_translator.
  rewrite Hctx, Hload. simpl. rewrite Hinst. simpl.
  destruct data_sources as [|src srcs]; simpl; [|done].
  destruct named_data_sources as [|[key v] named]; [by destruct Hsrc|].
  simpl. by destruct key as [|a [|b [|? ?]]].
Qed.

End translate_more.

Lemma translate_data_source_errors_witness :
  let load := fun _ : string => Ok [tt] in
  let run := fun _ : unit => Ok () in
  let ctx := fun _ : string => Ok () in
  ctx "http://x/imports" = Ok () ∧
  load "http://x/translator" = Ok (tt :: []) ∧
  run tt = Ok () ∧
  (([] : list string) ≠ [] ∨ [("source", "http://x/ds")] ≠ []) ∧
  POW.translate unit load run ctx (Ok "/tmp/pow-translate0") (Ok "/home")
    (fun _ => Ok ()) "http://x/translator" "http://x/imports" []
    [("source", "http://x/ds")]
  = Raise ValueError.
Proof.
  intros load run ctx.
  assert (H1 : ctx "http://x/imports" = Ok ()) by reflexivity.
  assert (H2 : load "http://x/translator" = Ok (tt :: [])) by reflexivity.
  assert (H3 : run tt = Ok ()) by reflexivity.
  assert (H4 : ([] : list string) ≠ [] ∨ [("source", "http://x/ds")] ≠ [])
    by (right; discriminate).
  exact (conj H1 (conj H2 (conj H3 (conj H4
    (translate_data_source_errors unit load run ctx (Ok "/tmp/pow-translate0")
       (Ok "/home") (fun _ => Ok ()) "http://x/translator" "http://x/imports"
       tt [] [] [("source", "http://x/ds")] H1 H2 H3 H4))))).
Defined.

(** ** The paths of the working directory *)

Section paths_more.
Import PosixPath POW.

Lemma prefix_app_str (a x : string) : String.prefix a (a +:+ x) = true.
Proof.
  induction a as [|c a IH]; [by destruct x|]. rewrite app_cons_str.
  change (String.prefix (String c a) (String c (a +:+ x)))
    with (if ascii_dec c c then String.prefix a (a +:+ x) else false).
  by destruct (ascii_dec c c).
Qed.

Lemma prefix_join (a b : string) :
  isabs b = false → String.prefix a (join a b) = true.
Proof.
  intros Hb. destruct (join_relative a b Hb) as [-> | ->]; apply prefix_app_str.
Qed.

Lemma prefix_cons_str (x y : ascii) (a b : string) :
  String.prefix (String x a) (String y b)
  = if ascii_dec x y then String.prefix a b else false.
Proof. reflexivity. Qed.

Lemma prefix_trans_str (a : string) :
  ∀ b c, String.prefix a b = true → String.prefix b c = true →
         String.prefix a c = true.
Proof.
  induction a as [|x a IH]; intros b c Hab Hbc; [by destruct c|].
  destruct b as [|y b]; [done|]. destruct c as [|z c]; [done|].
  rewrite prefix_cons_str in *.
  destruct (ascii_dec x y) as [->|]; [|done].
  destruct (ascii_dec y z) as [->|]; [|done]. by apply (IH b).
Qed.

(** X19. With the relative settings that are the default, the working
    directory is resolved against the base directory, and the
    configuration file and the store against the working directory: the
    paths of both start with the path of the working directory, which
    starts with the base directory. *)
Theorem relative_settings_stay_under_powdir (s : settings) :
  isabs (_powdir s) = false →
  isabs (_config_file s) = false →
  isabs (_store_name s) = false →
  String.prefix (basedir s) (powdir s) = true ∧
  String.prefix (powdir s) (config_file s) = true ∧
  String.prefix (powdir s) (store_name s) = true ∧
  String.prefix (basedir s) (config_file s) = true ∧
  String.prefix (basedir s) (store_name s) = true.
Proof.
  intros Hp Hc Hs.
  assert (H1 : String.prefix (basedir s) (powdir s) = true).
  { unfold powdir. rewrite Hp. by apply prefix_join. }
  assert (H2 : String.prefix (powdir s) (config_file s) = true).
  { unfold config_file. rewrite Hc. by apply prefix_join. }
  assert (H3 : String.prefix (powdir s) (store_name s) = true).
  { unfold store_name. rewrite Hs. by apply prefix_join. }
  split_and!; try done; by eapply prefix_trans_str.
Qed.

Lemma relative_settings_stay_under_powdir_witness :
  let s := {| basedir := "."; _powdir := ".pow"; _config_file := "pow.conf";
              _store_name := "worm.db" |} in
  isabs (_powdir s) = false ∧
  isabs (_config_file s) = false ∧
  isabs (_store_name s) = false ∧
  String.prefix (basedir s) (powdir s) = true ∧
  String.prefix (powdir s) (config_file s) = true ∧
  String.prefix (powdir s) (store_name s) = true ∧
  String.prefix (basedir s) (config_file s) = true ∧
  String.prefix (basedir s) (store_name s) = true.
Proof.
  intros s.
  assert (H1 : isabs (_powdir s) = false) by reflexivity.
  assert (H2 : isabs (_config_file s) = false) by reflexivity.
  assert (H3 : isabs (_store_name s) = false) by reflexivity.
  exact (conj H1 (conj H2 (conj H3
    (relative_settings_stay_under_powdir s H1 H2 H3)))).
Defined.

End paths_more.

(** ** The index file as a format *)

Section index_format.
Import Str POW.

(** X20. The index text written for entries whose file names and
    identifiers are not empty and hold no white space reads back, line
    by line, as these entries, in the same order. *)
Theorem index_text_round_trip (E : list (string * string)) :
  Forall (fun e => e.1 ≠ "" ∧ e.2 ≠ "" ∧
                   none_of isspace e.1 = true ∧ none_of isspace e.2 = true) E →
  parse_index_line <$>
    readlines (foldr (fun l text => index_line l +:+ text) "" E)
  = Ok <$> E.
Proof.
  intros HE. rewrite readlines_index.
  - induction HE as [|[f c] E (Hf & Hc & Hfs & Hcs) _ IH]; [done|].
    rewrite !fmap_cons, IH. f_equal. by apply parse_index_line_written.
  - eapply Forall_impl; [exact HE|]. intros e (_ & _ & H1 & H2).
    split; by apply none_of_newline.
Qed.

Lemma index_text_round_trip_witness :
  let E := [("2c26.nt", "http://x/a"); ("fcde.nt", "http://x/b")] in
  Forall (fun e => e.1 ≠ "" ∧ e.2 ≠ "" ∧
                   none_of isspace e.1 = true ∧ none_of isspace e.2 = true) E ∧
  parse_index_line <$>
    readlines (foldr (fun l text => index_line l +:+ text) "" E)
  = Ok <$> E.
Proof.
  intros E.
  assert (H1 : Forall (fun e => e.1 ≠ "" ∧ e.2 ≠ "" ∧
                   none_of isspace e.1 = true ∧ none_of isspace e.2 = true) E)
    by (apply (bool_decide_unpack _); vm_compute; exact I).
  exact (conj H1 (index_text_round_trip E H1)).
Defined.

End index_format.

(** ** A serialization pass that fails *)

Section serialize_on_disk_facts.
Import Str POW.
Variable hexdigest : string → string.

Lemma serialize_contexts_on_disk_spec (xs : list (string * gset triple)) :
  ∀ (files : gmap string (list nt_line)) (cd : list (string * string))
    (used : list string),
  (∀ k, is_Some (files !! k) ↔ ∃ h, h ∈ used ∧ k = h +:+ ".nt") →
  ∃ xs1 xs2, xs = xs1 ++ xs2 ∧
    NoDup (hexdigest <$> xs1.*1) ∧
    Forall (fun h => h ∉ used) (hexdigest <$> xs1.*1) ∧
    serialize_contexts_on_disk hexdigest xs files cd =
      (foldl (fun fs x => <[hexdigest x.1 +:+ ".nt" := serialize_nt x.2]> fs)
         files xs1,
       match xs2 with
       | [] => Ok (cd ++ ((fun x => (hexdigest x.1 +:+ ".nt", x.1)) <$> xs1))
       | _ :: _ => Raise TypeError
       end) ∧
    match xs2 with
    | [] => True
    | x :: _ => hexdigest x.1 ∈ used ∨ hexdigest x.1 ∈ hexdigest <$> xs1.*1
    end.
Proof.
  induction xs as [|[c T] xs IH]; intros files cd used Hinv.
  - exists [], []. split_and!; [done|constructor|constructor| |done].
    simpl. by rewrite app_nil_r.
  - cbn [serialize_contexts_on_disk fst snd].
    destruct (decide (hexdigest c ∈ used)) as [Hused|Hfresh].
    + exists [], ((c, T) :: xs). split_and!; [done|constructor|constructor| |].
      * by rewrite unused_name_taken by (apply Hinv; eauto).
      * by left.
    + rewrite unused_name_free.
      2:{ apply eq_None_not_Some. intros (h & Hh & Heq)%Hinv.
          apply app_inv_tail_str in Heq. by subst. }
      destruct (IH (<[hexdigest c +:+ ".nt" := serialize_nt T]> files)
                  (cd ++ [(hexdigest c +:+ ".nt", c)]) (hexdigest c :: used))
        as (xs1 & xs2 & -> & Hnd & Hno & Hrun & Hcol).
      { intros k. rewrite lookup_insert_is_Some, Hinv. split.
        - intros [<-|[_ (h & Hh & ->)]].
          + exists (hexdigest c). split; [apply list_elem_of_here|done].
          + exists h. split; [by apply list_elem_of_further|done].
        - intros (h & [->|Hh]%elem_of_cons & ->); [by left|].
          destruct (decide (hexdigest c +:+ ".nt" = h +:+ ".nt")); [by left|].
          right. eauto. }
      exists ((c, T) :: xs1), xs2. rewrite Forall_forall in Hno.
      split_and!.
      * done.
      * rewrite !fmap_cons. constructor; [|done]. intros Hin.
        apply (Hno _ Hin), list_elem_of_here.
      * rewrite !fmap_cons. constructor; [done|]. apply Forall_forall.
        intros h Hin Hu. apply (Hno _ Hin). by apply list_elem_of_further.
      * rewrite Hrun. simpl. f_equal. destruct xs2; [|done].
        by rewrite <- app_assoc.
      * destruct xs2 as [|x xs2]; [done|]. rewrite !fmap_cons.
        destruct Hcol as [[->|Hu]%elem_of_cons|Hin].
        -- right. apply list_elem_of_here.
        -- by left.
        -- right. by apply list_elem_of_further.
Qed.

(** X21. A serialization pass is not all or nothing.  It stops at the
    first context whose digest an earlier context had, with [TypeError]:
    by then whatever [graphs] held before is gone, the files of the
    contexts before that one are written, and there is no index.  When
    no digest is repeated it leaves the directory that the pass
    returns. *)
Theorem serialization_stops_at_first_collision (before : option graphs_dir)
    (g : Store) :
  ∃ xs1 xs2, contexts g = xs1 ++ xs2 ∧
    NoDup (hexdigest <$> xs1.*1) ∧
    match xs2 with
    | [] =>
        ∃ dir, _serialize_graphs hexdigest before g = Ok dir ∧
          _serialize_graphs_on_disk hexdigest before g = (Some dir, Ok ())
    | x :: _ =>
        hexdigest x.1 ∈ hexdigest <$> xs1.*1 ∧
        _serialize_graphs hexdigest before g = Raise TypeError ∧
        _serialize_graphs_on_disk hexdigest before g =
          (Some {| nt_files :=
                     foldl (fun fs x =>
                              <[hexdigest x.1 +:+ ".nt" := serialize_nt x.2]> fs)
                       ∅ xs1;
                   index := None |}, Raise TypeError)
    end.
Proof.
  assert (Hinv : ∀ k, is_Some ((∅ : gmap string (list nt_line)) !! k) ↔
                      ∃ h, h ∈ ([] : list string) ∧ k = h +:+ ".nt").
  { intros k. rewrite lookup_empty. split.
    - by intros [??].
    - intros (h & Hh & _). by apply elem_of_nil in Hh. }
  destruct (serialize_contexts_on_disk_spec (contexts g) ∅ [] [] Hinv)
    as (xs1 & xs2 & Hxs & Hnd & _ & Hrun & Hcol).
  exists xs1, xs2. split_and!; try done.
  pose proof (serialize_contexts_spec hexdigest (contexts g) ∅ [] [] Hinv) as Hspec.
  unfold _serialize_graphs, _serialize_graphs_on_disk. rewrite Hrun.
  destruct xs2 as [|x xs2].
  - rewrite app_nil_r in Hxs. rewrite decide_True in Hspec.
    2:{ rewrite Hxs. split; [done|]. apply Forall_forall.
        intros h _ Hh. by apply elem_of_nil in Hh. }
    rewrite Hspec, Hxs. simpl. eauto.
  - destruct Hcol as [Hin|Hin]; [by apply elem_of_nil in Hin|].
    rewrite decide_False in Hspec.
    2:{ intros [Hnd' _]. rewrite Hxs, fmap_app, fmap_app, !fmap_cons in Hnd'.
        apply NoDup_app in Hnd' as (_ & Hdis & _).
        apply (Hdis _ Hin), list_elem_of_here. }
    by rewrite Hspec.
Qed.

End serialize_on_disk_facts.
